(** * SatvikScan AI: the food-validation task queue

    A shallow embedding of the asynchronous pipeline of the repository:

    - [src/queue/processor.ts]  the classification adapter
      ([processFoodValidation]);
    - [src/queue/worker.ts]     the worker's job handler;
    - [src/queue/config.ts]     the queue configuration;
    - [src/index.ts]            the HTTP gateway ([POST /validate-food],
      [GET /task-status/:taskId]).

    JavaScript strings are sequences of UTF-16 code units, optional record
    fields are [option]s, a [throw] is the left summand of a sum, and the
    broker's key space is a finite map from job keys to job records. *)

From Stdlib Require Import ZArith NArith List String Ascii.
From Stdlib Require Import DecimalString DecimalPos DecimalN.
From stdpp Require Import base option list gmap.

Open Scope string_scope.
Open Scope list_scope.
Open Scope N_scope.

(** ** JavaScript strings *)

Module Js.

(** A string is the list of its UTF-16 code units. *)
Abbreviation jsstring := (list N).

(** An ASCII literal of the source. *)
Definition lit (s : string) : jsstring :=
  map N_of_ascii (list_ascii_of_string s).

(** [WhiteSpace] and [LineTerminator] of ECMAScript: what [\s] matches
    and what [String.prototype.trim] removes. *)
Definition is_line_terminator (c : N) : bool :=
  (c =? 10) || (c =? 13) || (c =? 8232) || (c =? 8233).

Definition is_white_space (c : N) : bool :=
  (c =? 9) || (c =? 11) || (c =? 12) || (c =? 32) || (c =? 160)
  || (c =? 5760) || ((8192 <=? c) && (c <=? 8202))
  || (c =? 8239) || (c =? 8287) || (c =? 12288) || (c =? 65279)
  || is_line_terminator c.

Fixpoint drop_while (p : N -> bool) (s : jsstring) : jsstring :=
  match s with
  | [] => []
  | c :: r => if p c then drop_while p r else s
  end.

Definition trimStart (s : jsstring) : jsstring := drop_while is_white_space s.

Definition trimEnd (s : jsstring) : jsstring :=
  rev (drop_while is_white_space (rev s)).

(** [s.trim()] *)
Definition trim (s : jsstring) : jsstring := trimEnd (trimStart s).

(** [strip_prefix p s] is [Some r] exactly when [s = p ++ r]. *)
Fixpoint strip_prefix (p s : jsstring) : option jsstring :=
  match p, s with
  | [], _ => Some s
  | a :: p', b :: s' => if a =? b then strip_prefix p' s' else None
  | _ :: _, [] => None
  end.

(** [s.startsWith(p)] *)
Definition startsWith (p s : jsstring) : bool :=
  match strip_prefix p s with Some _ => true | None => false end.

(** Truthiness of an optional string field: [undefined], [null] and the
    empty string are falsy. *)
Definition truthy (o : option jsstring) : bool :=
  match o with
  | Some (_ :: _) => true
  | _ => false
  end.

(** [o || d] on an optional string. *)
Definition or_else (o : option jsstring) (d : jsstring) : jsstring :=
  match o with
  | Some (c :: r) => c :: r
  | _ => d
  end.

(** *** Regular expressions

    The fragment of ECMAScript's regular expressions that the source
    uses, with no flag: the anchors, literal characters, a character class
    repeated greedily, numbered groups and sequences.  Matching is
    ECMAScript's backtracking: [exec r pos s caps k] matches [r] at the
    head of [s], the rest of the input from position [pos] on, and hands
    the position, the rest and the captures to the continuation [k]; the
    first way that lets [k] succeed is the match. *)
Inductive regex : Type :=
| Bol                                  (* ^ *)
| Eol                                  (* $ *)
| Chars (l : jsstring)                 (* literal characters *)
| Many (p : N -> bool) (min : nat)     (* c* is Many c 0, c+ is Many c 1 *)
| Group (i : nat) (r : regex)          (* ( r ), the i-th group *)
| Seq (r1 r2 : regex).

Definition captures : Type := list (nat * jsstring).

Definition capture (i : nat) (caps : captures) : option jsstring :=
  match List.find (fun c => Nat.eqb (fst c) i) caps with
  | Some c => Some (snd c)
  | None => None
  end.

(** A greedy repetition of a class: the longest run first, then shorter
    ones, never fewer than [min] characters; [n] counts those taken. *)
Fixpoint many {A : Type} (p : N -> bool) (min n pos : nat) (s : jsstring)
  (k : nat -> jsstring -> option A) : option A :=
  let stop := if Nat.leb min n then k pos s else None in
  match s with
  | c :: r =>
      if p c then
        match many p min (S n) (S pos) r k with
        | Some x => Some x
        | None => stop
        end
      else stop
  | [] => stop
  end.

Fixpoint exec {A : Type} (r : regex) (pos : nat) (s : jsstring) (caps : captures)
  (k : nat -> jsstring -> captures -> option A) : option A :=
  match r with
  | Bol => if Nat.eqb pos 0 then k pos s caps else None
  | Eol => match s with [] => k pos s caps | _ :: _ => None end
  | Chars l =>
      match strip_prefix l s with
      | Some rest => k (pos + length l)%nat rest caps
      | None => None
      end
  | Many p min => many p min 0 pos s (fun pos' rest => k pos' rest caps)
  | Group i r' =>
      exec r' pos s caps
        (fun pos' rest caps' => k pos' rest ((i, firstn (pos' - pos) s) :: caps'))
  | Seq r1 r2 =>
      exec r1 pos s caps (fun pos' rest caps' => exec r2 pos' rest caps' k)
  end.

(** The leftmost match: where it starts, where it ends, its captures. *)
Fixpoint search (r : regex) (pos : nat) (s : jsstring) : option (nat * nat * captures) :=
  match exec r pos s [] (fun pos' _ caps => Some (pos, pos', caps)) with
  | Some m => Some m
  | None =>
      match s with
      | [] => None
      | _ :: t => search r (S pos) t
      end
  end.

(** [s.match(r)], as the captures of the match. *)
Definition match_ (r : regex) (s : jsstring) : option captures :=
  match search r 0 s with
  | Some (_, _, caps) => Some caps
  | None => None
  end.

(** [s.replace(r, '')]: the leftmost match is cut out. *)
Definition replace_ (r : regex) (s : jsstring) : jsstring :=
  match search r 0 s with
  | Some (b, e, _) => firstn b s ++ skipn e s
  | None => s
  end.

Definition seq_of (rs : list regex) : regex := fold_right Seq (Chars []) rs.

Definition not_semicolon (c : N) : bool := negb (c =? 59).

(** What [.] matches. *)
Definition dot (c : N) : bool := negb (is_line_terminator c).

(** The regular expressions of [processor.ts]:
    [/^```json\s*/], [/^```\s*/], [/\s*```$/] and
    [/^data:([^;]+);base64,(.+)$/]. *)
Definition re_fence_json : regex :=
  seq_of [Bol; Chars (lit "```json"); Many is_white_space 0].

Definition re_fence : regex :=
  seq_of [Bol; Chars (lit "```"); Many is_white_space 0].

Definition re_fence_end : regex :=
  seq_of [Many is_white_space 0; Chars (lit "```"); Eol].

Definition re_data_url : regex :=
  seq_of [Bol; Chars (lit "data:"); Group 1 (Many not_semicolon 1);
          Chars (lit ";base64,"); Group 2 (Many dot 1); Eol].

End Js.

Import Js.

(** ** Values thrown and caught *)

(** What a [catch] clause can receive: an [Error] object, with the name of
    its constructor and its message, or some other value; the handlers of
    the repository only ask [error instanceof Error] and read
    [error.message] and [error.constructor.name]. *)
Inductive thrown : Type :=
| ErrorObj (ctor message : jsstring)
| NonError.

(** [error instanceof Error ? error.message : fallback] *)
Definition message_or (e : thrown) (fallback : jsstring) : jsstring :=
  match e with
  | ErrorObj _ m => m
  | NonError => fallback
  end.

(** [error instanceof Error ? error.constructor.name : fallback] *)
Definition ctor_or (e : thrown) (fallback : jsstring) : jsstring :=
  match e with
  | ErrorObj c _ => c
  | NonError => fallback
  end.

(** The outcome of a call that may throw (of an [async] function: of its
    promise): [inl] is a throw (a rejection), [inr] a normal return. *)
Definition exc (A : Type) : Type := thrown + A.

Definition bind_exc {A B : Type} (m : exc A) (k : A -> exc B) : exc B :=
  match m with
  | inl e => inl e
  | inr a => k a
  end.

(** [try { body } catch (e) { handler e }] *)
Definition try_catch {A : Type} (body : exc A) (handler : thrown -> exc A) : exc A :=
  match body with
  | inl e => handler e
  | inr a => inr a
  end.

Notation "'do' x <- m ; k" := (bind_exc m (fun x => k))
  (at level 10, x name, m at level 100, k at level 200).

(** ** JSON values, as [JSON.parse] returns them *)

Set Warnings "-register-all".

Inductive json : Type :=
| JNull
| JBool (b : bool)
| JNumber (mantissa exponent : Z)   (* mantissa * 10 ^ exponent *)
| JString (s : jsstring)
| JArray (items : list json)
| JObject (fields : list (jsstring * json)).

(** ** The data model of [processor.ts] *)

Record Buffer : Type := { bytes : list N }.

(** [interface FoodValidationTask]: every field is optional. *)
Record FoodValidationTask : Type := {
  imageFile : option Buffer;
  imageUrl : option jsstring;
  imageBase64 : option jsstring;
  foodName : option jsstring;
  ingredients : option jsstring;
  mediaType : option jsstring;
}.

Inductive ResultStatus : Type := status_completed | status_failed.

(** [interface FoodValidationResult] *)
Record FoodValidationResult : Type := {
  taskId : jsstring;
  status : ResultStatus;
  result : option json;
  error : option jsstring;
  processingTime : Z;
  completedAt : jsstring;
}.

(** One element of the user message. *)
Inductive FileData : Type :=
| DataBuffer (b : Buffer)
| DataUrl (u : jsstring).

Inductive ContentPart : Type :=
| TextPart (text : jsstring)
| FilePart (data : FileData) (media : jsstring).

(** The argument of [generateText]. *)
Record Request : Type := {
  system : jsstring;
  content : list ContentPart;
}.

(** The external classification service during one call: it answers with a
    text or throws. *)
Definition Service : Type := Request -> exc jsstring.

(** What the code takes from its platform: the base64 codec of [Buffer],
    [JSON.parse] (a [SyntaxError] with its message, or the value),
    [Date.prototype.toISOString], the message of the [TypeError] that
    [Object.keys(null)] throws, the system prompt read at start-up, what
    a call to the queue throws while the broker cannot be reached, and the
    number of handler runs that the queue library allows a worker at once
    when [process] is given no concurrency. *)
Class Runtime : Type := {
  Buffer_from_base64 : jsstring -> Buffer;
  Buffer_toString_base64 : Buffer -> jsstring;
  JSON_parse : jsstring -> jsstring + json;
  toISOString : Z -> jsstring;
  keys_of_null_message : jsstring;
  systemPrompt : jsstring;
  brokerDown : thrown;
  defaultConcurrency : nat;
}.

(** The readings of the clock during one run of the adapter. *)
Record Clock : Type := {
  startTime : Z;
  endTime : Z;
  doneTime : Z;
}.

(** ** The queue's job record *)

Inductive JobState : Type := waiting | active | completed | failed | delayed.

#[global] Instance JobState_eq_dec : EqDecision JobState.
Proof. solve_decision. Defined.

(** The options of a job: those that [queue.add] is given in [index.ts],
    over the [defaultJobOptions] of [config.ts]. *)
Record JobOpts : Type := {
  priority : Z;
  delay : Z;
  attempts : option nat;
  backoff_delay : Z;           (* backoff: { type: 'exponential', delay } *)
  removeOnComplete : Z;
  removeOnFail : Z;
}.

(** The fields of a job that the repository reads. *)
Record Job : Type := {
  id : N;
  data : FoodValidationTask;
  opts : JobOpts;
  state : JobState;
  progress : Z;
  timestamp : Z;
  processedOn : option Z;
  finishedOn : option Z;
  attemptsMade : nat;
  returnvalue : option FoodValidationResult;
  failedReason : option jsstring;
  runAt : Z;                   (* when a delayed job becomes due *)
}.

(** [n.toString()] for a job id. *)
Definition N_toString (n : N) : jsstring :=
  lit (DecimalString.NilZero.string_of_uint (N.to_uint n)).

(** ** [src/queue/processor.ts] *)

Module Processor.

Section Adapter.
Context `{Runtime}.

Definition newline : jsstring := [10].

Definition baseText : jsstring :=
  lit "Please analyze this food image and determine its compliance with various dietary standards.".

(** Lines 76 to 101: the base64 branch.  The pair is [(mediaType, cleanBase64)]
    as they stand when the buffer is made. *)
Definition normalizeBase64 (d : FoodValidationTask) (b64 : jsstring) : jsstring * jsstring :=
  let cleanBase64 := b64 in
  let mediaType0 := or_else (mediaType d) (lit "image/jpeg") in
  if startsWith (lit "data:") b64 then
    match match_ re_data_url b64 with
    | Some groups =>
        match capture 1 groups, capture 2 groups with
        | Some g1, Some g2 => (g1, g2)
        | _, _ => (mediaType0, cleanBase64)
        end
    | None => (mediaType0, cleanBase64)
    end
  else (mediaType0, cleanBase64).

(** Lines 60 to 102: what is pushed on [userContent] after the text. *)
Definition imageParts (d : FoodValidationTask) : list ContentPart :=
  match imageFile d with
  | Some f => [FilePart (DataBuffer f) (or_else (mediaType d) (lit "image/jpeg"))]
  | None =>
      match imageUrl d with
      | Some (c :: u) => [FilePart (DataUrl (c :: u)) (lit "image/jpeg")]
      | _ =>
          match imageBase64 d with
          | Some (c :: b) =>
              let '(media, cleanBase64) := normalizeBase64 d (c :: b) in
              [FilePart (DataBuffer (Buffer_from_base64 cleanBase64)) media]
          | _ => []
          end
      end
  end.

(** Lines 104 to 118: the text of [userContent[0]] when the call is made. *)
Definition userText (d : FoodValidationTask) : jsstring :=
  let foodName := or_else (foodName d) [] in
  let ingredients := or_else (ingredients d) [] in
  match foodName, ingredients with
  | [], [] => baseText
  | _, _ =>
      baseText ++ newline ++ newline ++ lit "Additional information:" ++ newline
      ++ (match foodName with
          | [] => []
          | _ => lit "Food name: " ++ foodName ++ newline
          end)
      ++ (match ingredients with
          | [] => []
          | _ => lit "Ingredients: " ++ ingredients ++ newline
          end)
  end.

Definition userContent (d : FoodValidationTask) : list ContentPart :=
  TextPart (userText d) :: imageParts d.

Definition request (d : FoodValidationTask) : Request :=
  {| system := systemPrompt; content := userContent d |}.

(** Lines 146 to 155: the reply without its code fence. *)
Definition cleanResponse (text : jsstring) : jsstring :=
  let c := trim text in
  if startsWith (lit "```json") c then
    replace_ re_fence_end (replace_ re_fence_json c)
  else if startsWith (lit "```") c then
    replace_ re_fence_end (replace_ re_fence c)
  else c.

(** [Object.keys(v)] throws a [TypeError] on [null]; the adapter calls it
    on the parsed reply (line 159) and uses only whether it returns. *)
Definition Object_keys (v : json) : exc (list jsstring) :=
  match v with
  | JNull => inl (ErrorObj (lit "TypeError") keys_of_null_message)
  | JObject fields => inr (map fst fields)
  | JArray items => inr (map (fun i => N_toString (N.of_nat i)) (seq 0 (length items)))
  | JString s => inr (map (fun i => N_toString (N.of_nat i)) (seq 0 (length s)))
  | JBool _ | JNumber _ _ => inr []
  end.

(** [JSON.parse] as a call that may throw. *)
Definition parseJSON (s : jsstring) : exc json :=
  match JSON_parse s with
  | inl m => inl (ErrorObj (lit "SyntaxError") m)
  | inr v => inr v
  end.

(** Lines 144 to 175: the inner [try] and its [catch], up to the value
    that the [return] of line 164 carries. *)
Definition parseReply (text : jsstring) : exc json :=
  try_catch
    (do jsonResponse <- parseJSON (cleanResponse text);
     do _ <- Object_keys jsonResponse;
     inr jsonResponse)
    (fun parseError =>
       inl (ErrorObj (lit "Error")
              (lit "Failed to parse AI response as JSON: "
               ++ message_or parseError (lit "Unknown parse error")))).

(** Lines 50 to 175: the body of the outer [try], up to the value that the
    [return] of line 164 carries.  [generateText] is the service during
    this call. *)
Definition classify (generateText : Service) (d : FoodValidationTask) : exc json :=
  do text <- generateText (request d);
  parseReply text.

(** Lines 34 to 191. *)
Definition processFoodValidation (generateText : Service) (clock : Clock) (job : Job)
  : exc FoodValidationResult :=
  let taskId := or_else (Some (N_toString (id job))) (lit "unknown") in
  try_catch
    (do jsonResponse <- classify generateText (data job);
     inr {| taskId := taskId;
            status := status_completed;
            result := Some jsonResponse;
            error := None;
            processingTime := (endTime clock - startTime clock)%Z;
            completedAt := toISOString (doneTime clock) |})
    (fun error =>
       inr {| taskId := taskId;
              status := status_failed;
              result := None;
              error := Some (message_or error (lit "Unknown error"));
              processingTime := (endTime clock - startTime clock)%Z;
              completedAt := toISOString (doneTime clock) |}).

End Adapter.

End Processor.

(** ** [src/queue/config.ts] *)

Module Config.

(** The value of an ASCII digit in base 10 or 16. *)
Definition digit_value (radix c : N) : option N :=
  if (48 <=? c) && (c <=? 57) then Some (c - 48)
  else if (radix =? 16) && (97 <=? c) && (c <=? 102) then Some (c - 87)
  else if (radix =? 16) && (65 <=? c) && (c <=? 70) then Some (c - 55)
  else None.

(** The digits at the head of [s], read in [radix]; [None] when there is
    none. *)
Fixpoint digits (radix : N) (acc : option N) (s : jsstring) : option N :=
  match s with
  | [] => acc
  | c :: r =>
      match digit_value radix c with
      | Some v => digits radix (Some (radix * default 0 acc + v)) r
      | None => acc
      end
  end.

Definition unsigned (s : jsstring) : option N :=
  match s with
  | 48 :: 120 :: r | 48 :: 88 :: r => digits 16 None r
  | _ => digits 10 None s
  end.

(** [parseInt(s)] with no radix; [None] is [NaN]. *)
Definition parseInt (s : jsstring) : option Z :=
  match trimStart s with
  | 45 :: r => (fun n => (- Z.of_N n)%Z) <$> unsigned r
  | 43 :: r => Z.of_N <$> unsigned r
  | r => Z.of_N <$> unsigned r
  end.

(** The part of [process.env] that the queue reads. *)
Record Env : Type := {
  QUEUE_CONCURRENCY : option jsstring;
}.

(** [queueConfig] *)
Definition concurrency (env : Env) : option Z :=
  parseInt (or_else (QUEUE_CONCURRENCY env) (lit "5")).

Definition timeout : Z := 30 * 60 * 1000.
Definition attempts : nat := 3.
Definition backoff_delay : Z := 2000.
Definition removeOnComplete : Z := 24 * 60 * 60 * 1000.
Definition removeOnFail : Z := 7 * 24 * 60 * 60 * 1000.

(** [defaultJobOptions] of the queue, with the priority and delay that a
    job has when [queue.add] is given none. *)
Definition defaultJobOptions : JobOpts :=
  Build_JobOpts 0 0 (Some attempts) backoff_delay removeOnComplete removeOnFail.

End Config.

(** ** The task queue *)

Module Bull.

(** Modelled from the spec: the queue library and the broker are outside
    the repository.  This is the state of the named queue in the broker:
    the job records under their keys (the decimal text of the job id),
    the counter that assigns ids, the waiting list in insertion order, and
    whether the broker can be reached. *)
Record QueueState : Type := {
  jobs : gmap jsstring Job;
  counter : N;
  wait : list jsstring;
  reachable : bool;
}.

Definition empty : QueueState :=
  {| jobs := ∅; counter := 0; wait := []; reachable := true |}.

Definition key (n : N) : jsstring := N_toString n.

(** [job.opts.attempts || 3], as [index.ts] reads the bound (line 182). *)
Definition maxAttempts (o : JobOpts) : nat :=
  match attempts o with
  | Some (S n) => S n
  | _ => 3
  end.

Definition terminal (s : JobState) : bool :=
  match s with
  | completed | failed => true
  | _ => false
  end.

Section Transitions.
Context `{Runtime}.

(** Modelled from the spec: [enqueue(payload, options) -> taskId] creates
    the job record, waiting, or delayed when the options ask for a delay;
    it fails only when the broker cannot be reached. *)
Definition add (d : FoodValidationTask) (o : JobOpts) (now : Z) (q : QueueState)
  : exc Job * QueueState :=
  if reachable q then
    let n := counter q + 1 in
    let j := {| id := n; data := d; opts := o;
                state := if (0 <? delay o)%Z then delayed else waiting;
                progress := 0; timestamp := now;
                processedOn := None; finishedOn := None;
                attemptsMade := 0; returnvalue := None; failedReason := None;
                runAt := (now + delay o)%Z |} in
    (inr j,
     {| jobs := <[key n := j]> (jobs q);
        counter := n;
        wait := if (0 <? delay o)%Z then wait q else wait q ++ [key n];
        reachable := true |})
  else (inl brokerDown, q).

(** Modelled from the spec: [getJob(taskId) -> JobRecord | not-found]. *)
Definition getJob (taskId : jsstring) (q : QueueState) : exc (option Job) :=
  if reachable q then inr (jobs q !! taskId) else inl brokerDown.

(** Modelled from the spec: [listByState(waiting)], in insertion order. *)
Definition getWaiting (q : QueueState) : exc (list Job) :=
  if reachable q then inr (omap (fun k => jobs q !! k) (wait q))
  else inl brokerDown.

End Transitions.

(** Modelled from the spec: a worker claims a job; created -> active. *)
Definition moveToActive (now : Z) (j : Job) : Job :=
  {| id := id j; data := data j; opts := opts j;
     state := active;
     progress := progress j; timestamp := timestamp j;
     processedOn := Some now; finishedOn := finishedOn j;
     attemptsMade := attemptsMade j; returnvalue := returnvalue j;
     failedReason := failedReason j; runAt := runAt j |}.

(** Modelled from the spec: the handler returned; active -> completed,
    terminal, holding the result. *)
Definition moveToCompleted (rv : FoodValidationResult) (now : Z) (j : Job) : Job :=
  {| id := id j; data := data j; opts := opts j;
     state := completed;
     progress := progress j; timestamp := timestamp j;
     processedOn := processedOn j; finishedOn := Some now;
     attemptsMade := attemptsMade j; returnvalue := Some rv;
     failedReason := failedReason j; runAt := runAt j |}.

(** Modelled from the spec: the handler threw.  The attempt is counted and
    the reason recorded; below the bound the job is queued again after
    [base * 2^(attemptNumber-1)], at the bound it is failed for good. *)
Definition moveToFailed (err : thrown) (now : Z) (j : Job) : Job :=
  let made := S (attemptsMade j) in
  let again := Nat.ltb made (maxAttempts (opts j)) in
  {| id := id j; data := data j; opts := opts j;
     state := if again then delayed else failed;
     progress := progress j; timestamp := timestamp j;
     processedOn := processedOn j;
     finishedOn := if again then finishedOn j else Some now;
     attemptsMade := made; returnvalue := returnvalue j;
     failedReason := Some (message_or err (lit "Unknown reason"));
     runAt := if again
              then (now + backoff_delay (opts j) * 2 ^ Z.of_nat (made - 1))%Z
              else runAt j |}.

(** Modelled from the spec: a delayed job that is due waits again. *)
Definition moveToWait (j : Job) : Job :=
  {| id := id j; data := data j; opts := opts j;
     state := waiting;
     progress := progress j; timestamp := timestamp j;
     processedOn := processedOn j; finishedOn := finishedOn j;
     attemptsMade := attemptsMade j; returnvalue := returnvalue j;
     failedReason := failedReason j; runAt := runAt j |}.

(** What the queue does with the outcome of the handler. *)
Definition finish (outcome : exc FoodValidationResult) (now : Z) (j : Job) : Job :=
  match outcome with
  | inr rv => moveToCompleted rv now j
  | inl err => moveToFailed err now j
  end.

(** One attempt on a job that waits: claim it, run the handler on it,
    record the outcome. *)
Definition attempt (handler : Job -> exc FoodValidationResult) (now : Z) (j : Job) : Job :=
  let j' := moveToActive now j in
  finish (handler j') now j'.

(** The attempts of a job, one handler run per element, until a terminal
    state; a job delayed by the backoff waits again before the next. *)
Fixpoint run (handlers : list (Job -> exc FoodValidationResult)) (now : Z) (j : Job) : Job :=
  match handlers with
  | [] => j
  | h :: rest =>
      if terminal (state j) then j
      else run rest now (attempt h now (moveToWait j))
  end.

(** Modelled from the spec: an identifier can expire (section 7).  The
    queue library reads the numeric options [removeOnComplete] and
    [removeOnFail] of [config.ts] as the number of finished jobs of that
    kind that the queue keeps.  [held st q] counts the jobs in state [st]. *)
Definition held (st : JobState) (q : QueueState) : nat :=
  size (filter (fun kj => state kj.2 = st) (jobs q)).

(** Modelled from the spec: a finished job is over the limit while the
    queue holds more jobs of its kind than its own option allows. *)
Definition over_limit (q : QueueState) (j : Job) : bool :=
  match state j with
  | completed => (removeOnComplete (opts j) <? Z.of_nat (held completed q))%Z
  | failed => (removeOnFail (opts j) <? Z.of_nat (held failed q))%Z
  | _ => false
  end.

(** Modelled from the spec: the record of a finished job that is over the
    limit is removed; a job within the limit, and one that is not
    finished, is kept.  Which of the jobs over the limit goes first is
    left open. *)
Definition expire (k : jsstring) (q : QueueState) : QueueState :=
  match jobs q !! k with
  | Some j =>
      if over_limit q j then
        {| jobs := delete k (jobs q);
           counter := counter q; wait := wait q; reachable := reachable q |}
      else q
  | None => q
  end.

(** The head of the waiting list is claimed. *)
Definition claim (now : Z) (q : QueueState) : option (jsstring * QueueState) :=
  match wait q with
  | [] => None
  | k :: rest =>
      match jobs q !! k with
      | Some j =>
          Some (k, {| jobs := <[k := moveToActive now j]> (jobs q);
                      counter := counter q; wait := rest;
                      reachable := reachable q |})
      | None => None
      end
  end.

(** The outcome of an active job is recorded. *)
Definition settle (k : jsstring) (outcome : exc FoodValidationResult) (now : Z)
  (q : QueueState) : QueueState :=
  match jobs q !! k with
  | Some j =>
      match state j with
      | active =>
          {| jobs := <[k := finish outcome now j]> (jobs q);
             counter := counter q; wait := wait q; reachable := reachable q |}
      | _ => q
      end
  | None => q
  end.

(** A delayed job that is due goes back to the waiting list. *)
Definition promote (k : jsstring) (now : Z) (q : QueueState) : QueueState :=
  match jobs q !! k with
  | Some j =>
      match state j with
      | delayed =>
          if (runAt j <=? now)%Z then
            {| jobs := <[k := moveToWait j]> (jobs q);
               counter := counter q; wait := wait q ++ [k];
               reachable := reachable q |}
          else q
      | _ => q
      end
  | None => q
  end.

(** Modelled from the spec: [process(name, concurrency?, handler)]
    registers a handler, and a worker has at most [concurrency] handler
    runs in flight.  When the argument is left out the bound is the
    default of the library, a value of the runtime (the library documents
    1). *)
Record Registration : Type := {
  name : jsstring;
  concurrencyArg : option nat;
}.

Definition parallelism `{Runtime} (r : Registration) : nat :=
  default defaultConcurrency (concurrencyArg r).

End Bull.

(** ** [src/queue/worker.ts] *)

Module Worker.

(** Line 7: the call [foodValidationQueue.process('food-validation', handler)]
    names the queue and the handler, and gives no concurrency. *)
Definition registration : Bull.Registration :=
  {| Bull.name := lit "food-validation"; Bull.concurrencyArg := None |}.

Section Handler.
Context `{Runtime}.

(** Lines 7 to 18: the callback given to [foodValidationQueue.process]. *)
Definition handler (generateText : Service) (clock : Clock) (job : Job)
  : exc FoodValidationResult :=
  try_catch
    (do result <- Processor.processFoodValidation generateText clock job;
     inr result)
    (fun error => inl error).

End Handler.

End Worker.

(** ** [src/index.ts]: the HTTP gateway *)

Module Gateway.

(** An uploaded file of the form. *)
Record File : Type := {
  file_name : jsstring;
  file_type : jsstring;
  file_data : Buffer;
}.

(** The fields that the handler reads with [formData.get], [None] when the
    field is absent; each has the type to which the source casts it. *)
Record FormData : Type := {
  image : option File;
  form_imageUrl : option jsstring;
  form_imageBase64 : option jsstring;
  form_foodName : option jsstring;
  form_ingredients : option jsstring;
}.

(** [c.json(body, code)]; a field whose value is [undefined] is left out
    of the body. *)
Record Response : Type := {
  code : nat;
  body : json;
}.

Definition Z_toString (z : Z) : jsstring :=
  if (z <? 0)%Z then lit "-" ++ N_toString (Z.abs_N z) else N_toString (Z.abs_N z).

Definition num (z : Z) : json := JNumber z 0.
Definition str (s : string) : json := JString (lit s).

(** An object literal, without the fields that are [undefined]. *)
Definition object (fields : list (string * option json)) : json :=
  JObject (omap (fun kv => match kv.2 with
                           | Some v => Some (lit kv.1, v)
                           | None => None
                           end) fields).

Definition state_name (s : JobState) : jsstring :=
  match s with
  | waiting => lit "waiting"
  | active => lit "active"
  | completed => lit "completed"
  | failed => lit "failed"
  | delayed => lit "delayed"
  end.

Section Handlers.
Context `{Runtime}.

(** Lines 73 to 95: the task payload. *)
Definition taskData (f : FormData) : FoodValidationTask :=
  let foodName := Some (or_else (form_foodName f) []) in
  let ingredients := Some (or_else (form_ingredients f) []) in
  match image f with
  | Some imageFile =>
      {| imageFile := None; imageUrl := None;
         imageBase64 := Some (Buffer_toString_base64 (file_data imageFile));
         foodName := foodName; ingredients := ingredients;
         mediaType := Some (or_else (Some (file_type imageFile)) (lit "image/jpeg")) |}
  | None =>
      match form_imageUrl f with
      | Some (c :: u) =>
          {| imageFile := None; imageUrl := Some (c :: u); imageBase64 := None;
             foodName := foodName; ingredients := ingredients; mediaType := None |}
      | _ =>
          match form_imageBase64 f with
          | Some (c :: b) =>
              {| imageFile := None; imageUrl := None; imageBase64 := Some (c :: b);
                 foodName := foodName; ingredients := ingredients;
                 mediaType := Some (lit "image/jpeg") |}
          | _ =>
              {| imageFile := None; imageUrl := None; imageBase64 := None;
                 foodName := foodName; ingredients := ingredients; mediaType := None |}
          end
      end
  end.

(** Lines 105 to 113: the options given to [queue.add], over the defaults
    of the queue. *)
Definition addOptions : JobOpts :=
  Build_JobOpts 1 0 (Some 3%nat) 2000
    (removeOnComplete Config.defaultJobOptions) (removeOnFail Config.defaultJobOptions).

(** [!imageFile && !imageUrl && !imageBase64] *)
Definition noImage (f : FormData) : bool :=
  negb (bool_decide (is_Some (image f)))
  && negb (truthy (form_imageUrl f)) && negb (truthy (form_imageBase64 f)).

(** Lines 44 to 145: [POST /validate-food].  [form] is the outcome of
    [c.req.formData()]. *)
Definition postValidateFood (form : exc FormData) (clock : Clock) (q : Bull.QueueState)
  : Response * Bull.QueueState :=
  let caught (error : thrown) :=
    {| code := 500;
       body := object
         [("success", Some (JBool false));
          ("error", Some (str "Failed to queue food validation task"));
          ("details", Some (JString (message_or error (lit "Unknown error"))));
          ("error_type", Some (JString (ctor_or error (lit "Unknown"))));
          ("request_duration_ms", Some (num (endTime clock - startTime clock)))] |} in
  match form with
  | inl error => (caught error, q)
  | inr formData =>
      if noImage formData then
        ({| code := 400;
            body := object
              [("error", Some (str "Please provide either an image file, image URL, or base64 encoded image"))] |},
         q)
      else
        match Bull.add (taskData formData) addOptions (startTime clock) q with
        | (inl error, q') => (caught error, q')
        | (inr job, q') =>
            ({| code := 200;
                body := object
                  [("success", Some (JBool true));
                   ("taskId", Some (num (Z.of_N (id job))));
                   ("message", Some (str "Food validation task queued successfully"));
                   ("estimatedProcessingTime", Some (str "10-30 seconds"));
                   ("statusEndpoint", Some (JString (lit "/task-status/" ++ N_toString (id job))));
                   ("queueTime", Some (JString (Z_toString (endTime clock - startTime clock) ++ lit "ms")))] |},
             q')
        end
  end.

(** [waiting.findIndex(j => j.id === parseInt(taskId))] *)
Fixpoint findIndex (n : option Z) (l : list Job) (i : Z) : Z :=
  match l with
  | [] => (-1)%Z
  | j :: r =>
      if bool_decide (n = Some (Z.of_N (id j))) then i else findIndex n r (i + 1)%Z
  end.

(** Lines 173 to 210: the body for a job that was found, given the waiting
    list when the job waits. *)
Definition statusBody (taskId : jsstring) (job : Job) (waitingJobs : list Job) : json :=
  let jobState := state job in
  let returned := returnvalue job in   (* [result] in the source *)
  let position := (findIndex (Config.parseInt taskId) waitingJobs 0 + 1)%Z in
  let when (b : bool) (v : option json) := if b then v else None in
  let isCompleted := bool_decide (jobState = completed) && bool_decide (is_Some returned) in
  let isFailed := bool_decide (jobState = failed) && truthy (failedReason job) in
  let isWaiting := bool_decide (jobState = waiting) in
  let isActive := bool_decide (jobState = active) in
  object
    [("success", Some (JBool true));
     ("taskId", Some (JString taskId));
     ("status", Some (JString (state_name jobState)));
     ("progress", Some (num (progress job)));
     ("createdAt", Some (num (timestamp job)));
     ("processedAt", num <$> processedOn job);
     ("finishedAt", num <$> finishedOn job);
     ("attempts", Some (num (Z.of_nat (attemptsMade job))));
     ("maxAttempts", Some (num (Z.of_nat (Bull.maxAttempts (opts job)))));
     ("result", when isCompleted (returned ≫= result));
     ("processingTime", when isCompleted ((fun r => num (processingTime r)) <$> returned));
     ("completedAt", when isCompleted ((fun r => JString (completedAt r)) <$> returned));
     ("error", when isFailed (JString <$> failedReason job));
     ("failedAt", when isFailed (num <$> finishedOn job));
     ("queuePosition", when isWaiting (Some (num position)));
     ("estimatedWaitTime",
      when isWaiting (Some (JString (Z_toString (position * 10) ++ lit " seconds"))));
     ("processingStartedAt", when isActive (num <$> processedOn job));
     ("estimatedCompletionTime", when isActive (Some (str "5-15 seconds")))].

(** Lines 148 to 224: [GET /task-status/:taskId].  The handler only reads
    the queue. *)
Definition getTaskStatus (taskId : jsstring) (q : Bull.QueueState) : Response :=
  let outcome : exc Response :=
    do found <- Bull.getJob taskId q;
    match found with
    | None =>
        inr {| code := 404;
               body := object
                 [("success", Some (JBool false));
                  ("error", Some (str "Task not found"));
                  ("taskId", Some (JString taskId))] |}
    | Some job =>
        do waitingJobs <- (match state job with
                           | waiting => Bull.getWaiting q
                           | _ => inr []
                           end);
        inr {| code := 200; body := statusBody taskId job waitingJobs |}
    end in
  match outcome with
  | inr response => response
  | inl error =>
      {| code := 500;
         body := object
           [("success", Some (JBool false));
            ("error", Some (str "Failed to retrieve task status"));
            ("details", Some (JString (message_or error (lit "Unknown error"))));
            ("taskId", Some (JString taskId))] |}
  end.

End Handlers.

End Gateway.

(** ** The gateway, the queue and one worker process *)

Module System.

Record State : Type := {
  queue : Bull.QueueState;
  inflight : list jsstring;     (* the jobs whose handler the worker is running *)
}.

Definition initial : State := {| queue := Bull.empty; inflight := [] |}.

Definition set_reachable (b : bool) (q : Bull.QueueState) : Bull.QueueState :=
  {| Bull.jobs := Bull.jobs q; Bull.counter := Bull.counter q;
     Bull.wait := Bull.wait q; Bull.reachable := b |}.

Section Steps.
Context `{Runtime}.

(** What can happen, one event at a time: a client posts a form; the
    worker, while it has a free slot, claims the head of the waiting list;
    a handler run of the worker ends and the queue records its outcome; a
    delayed job becomes due; a finished job over the retention limit is
    removed; the broker goes away or comes back.  [env] is the environment
    in which [config.ts] was loaded. *)
Inductive step (env : Config.Env) : State -> State -> Prop :=
| step_post form clock s :
    step env s
      {| queue := (Gateway.postValidateFood form clock (queue s)).2;
         inflight := inflight s |}
| step_claim now k q' s :
    (length (inflight s) < Bull.parallelism Worker.registration)%nat ->
    Bull.claim now (queue s) = Some (k, q') ->
    step env s {| queue := q'; inflight := k :: inflight s |}
| step_settle k job generateText clock now s :
    k ∈ inflight s ->
    Bull.jobs (queue s) !! k = Some job ->
    step env s
      {| queue := Bull.settle k (Worker.handler generateText clock job) now (queue s);
         inflight := filter (fun k' => k' ≠ k) (inflight s) |}
| step_promote k now s :
    step env s {| queue := Bull.promote k now (queue s); inflight := inflight s |}
| step_expire k s :
    step env s {| queue := Bull.expire k (queue s); inflight := inflight s |}
| step_broker b s :
    step env s {| queue := set_reachable b (queue s); inflight := inflight s |}.

Definition reachable_from (env : Config.Env) : State -> State -> Prop := rtc (step env).

End Steps.

End System.

(** ** Invariants of the queue state *)

(** Every key is the key of an id that the counter has passed; every entry
    of the waiting list is a job that waits; no job waits twice. *)
Definition Inv (q : Bull.QueueState) : Prop :=
  (forall k j, Bull.jobs q !! k = Some j ->
               exists n, k = Bull.key n /\ n <= Bull.counter q)
  /\ (forall k, k ∈ Bull.wait q ->
                exists j, Bull.jobs q !! k = Some j /\ state j = waiting)
  /\ NoDup (Bull.wait q).

(** A record in a terminal state is left as it is, or removed. *)
Definition kept_or_removed (k : jsstring) (j : Job) (q' : Bull.QueueState) : Prop :=
  Bull.jobs q' !! k = Some j \/ Bull.jobs q' !! k = None.

(** A removed record does not come back: its key is the key of an id that
    the counter has passed. *)
Definition passed (k : jsstring) (q : Bull.QueueState) : Prop :=
  exists n, k = Bull.key n /\ n <= Bull.counter q.

(** ** The words of the specification *)

Module Spec.

(** The value of a field of a JSON object. *)
Definition field (k : string) (v : json) : option json :=
  match v with
  | JObject fields => snd <$> List.find (fun kv => bool_decide (kv.1 = lit k)) fields
  | _ => None
  end.

Definition isString (v : json) : bool :=
  match v with JString _ => true | _ => false end.

Definition isStrings (v : json) : bool :=
  match v with JArray items => forallb isString items | _ => false end.

Definition isYesNo (v : json) : bool :=
  match v with
  | JString s => bool_decide (s = lit "yes") || bool_decide (s = lit "no")
  | _ => false
  end.

Definition has (k : string) (p : json -> bool) (v : json) : bool :=
  match field k v with Some x => p x | None => false end.

(** The Classification Result shape (section 3): a food name, a list of
    ingredient strings, five yes/no flags and a list of reason strings,
    under the names that the system prompt gives them. *)
Definition ClassificationResult (v : json) : bool :=
  has "food_item" isString v
  && has "ingredients" isStrings v
  && has "is_veg" isYesNo v
  && has "is_swaminarayan_compliant" isYesNo v
  && has "is_jain_compliant" isYesNo v
  && has "is_vegan_compliant" isYesNo v
  && has "is_upvas_compliant" isYesNo v
  && has "reason" isStrings v.

(** An image reference of a task payload. *)
Inductive ImageRef : Type :=
| RawBytes (f : Buffer)
| Url (u : jsstring)
| Base64 (b : jsstring).

(** The references that a payload populates, in the declared precedence:
    raw bytes, then URL, then base64. *)
Definition populated (d : FoodValidationTask) : list ImageRef :=
  match imageFile d with Some f => [RawBytes f] | None => [] end
  ++ (if truthy (imageUrl d) then [Url (or_else (imageUrl d) [])] else [])
  ++ (if truthy (imageBase64 d) then [Base64 (or_else (imageBase64 d) [])] else []).

(** The payload [d] with the one reference [r] and no other. *)
Definition only (r : ImageRef) (d : FoodValidationTask) : FoodValidationTask :=
  {| imageFile := match r with RawBytes f => Some f | _ => None end;
     imageUrl := match r with Url u => Some u | _ => None end;
     imageBase64 := match r with Base64 b => Some b | _ => None end;
     foodName := foodName d; ingredients := ingredients d;
     mediaType := mediaType d |}.

(** [data:<mediatype>;base64,<data>] *)
Definition dataUrl (mediatype data : jsstring) : jsstring :=
  lit "data:" ++ mediatype ++ lit ";base64," ++ data.

(** [sub] occurs in [s]. *)
Fixpoint occurs (sub s : jsstring) : bool :=
  startsWith sub s
  || match s with
     | [] => false
     | _ :: r => occurs sub r
     end.

End Spec.

(** ** A runtime for the examples *)

Module Demo.

(** The value of a character of the base64 alphabets. *)
Definition sextet (c : N) : option N :=
  if (65 <=? c) && (c <=? 90) then Some (c - 65)
  else if (97 <=? c) && (c <=? 122) then Some (c - 71)
  else if (48 <=? c) && (c <=? 57) then Some (c + 4)
  else if (c =? 43) || (c =? 45) then Some 62
  else if (c =? 47) || (c =? 95) then Some 63
  else None.

(** The sextets of a text, up to the first [=]; other characters are
    skipped. *)
Fixpoint sextets (s : jsstring) : list N :=
  match s with
  | [] => []
  | c :: r =>
      if c =? 61 then []
      else match sextet c with
           | Some v => v :: sextets r
           | None => sextets r
           end
  end.

Fixpoint octets (l : list N) : list N :=
  match l with
  | a :: b :: c :: d :: r =>
      (a * 4 + b / 16) :: ((b mod 16) * 16 + c / 4) :: ((c mod 4) * 64 + d) :: octets r
  | [a; b; c] => [a * 4 + b / 16; (b mod 16) * 16 + c / 4]
  | [a; b] => [a * 4 + b / 16]
  | _ => []
  end.

Definition from_base64 (s : jsstring) : Buffer := {| bytes := octets (sextets s) |}.

Definition alphabet (v : N) : N :=
  if v <? 26 then v + 65
  else if v <? 52 then v + 71
  else if v <? 62 then v - 4
  else if v =? 62 then 43 else 47.

Fixpoint encode (l : list N) : jsstring :=
  match l with
  | a :: b :: c :: r =>
      alphabet (a / 4) :: alphabet ((a mod 4) * 16 + b / 16)
      :: alphabet ((b mod 16) * 4 + c / 64) :: alphabet (c mod 64) :: encode r
  | [a; b] =>
      [alphabet (a / 4); alphabet ((a mod 4) * 16 + b / 16); alphabet ((b mod 16) * 4); 61]
  | [a] => [alphabet (a / 4); alphabet ((a mod 4) * 16); 61; 61]
  | [] => []
  end.

Definition to_base64 (b : Buffer) : jsstring := encode (bytes b).

(** The text of a JSON value (of one whose strings need no escape). *)
Fixpoint stringify (v : json) : jsstring :=
  match v with
  | JNull => lit "null"
  | JBool true => lit "true"
  | JBool false => lit "false"
  | JNumber m e =>
      Gateway.Z_toString m ++ (if (e =? 0)%Z then [] else lit "e" ++ Gateway.Z_toString e)
  | JString s => [34] ++ s ++ [34]
  | JArray items =>
      lit "["
      ++ (fix go (l : list json) : jsstring :=
            match l with
            | [] => []
            | [x] => stringify x
            | x :: r => stringify x ++ lit "," ++ go r
            end) items
      ++ lit "]"
  | JObject fields =>
      lit "{"
      ++ (fix go (l : list (jsstring * json)) : jsstring :=
            match l with
            | [] => []
            | [(k, x)] => [34] ++ k ++ [34] ++ lit ":" ++ stringify x
            | (k, x) :: r => [34] ++ k ++ [34] ++ lit ":" ++ stringify x ++ lit "," ++ go r
            end) fields
      ++ lit "}"
  end.

Definition strings (l : list string) : json := JArray (map (fun s => JString (lit s)) l).

(** A verdict of the shape that the system prompt asks for. *)
Definition potatoChips : json :=
  JObject
    [(lit "food_item", Gateway.str "Potato Chips");
     (lit "ingredients", strings ["potato"; "oil"; "salt"]);
     (lit "is_veg", Gateway.str "yes");
     (lit "is_swaminarayan_compliant", Gateway.str "yes");
     (lit "is_jain_compliant", Gateway.str "no");
     (lit "is_vegan_compliant", Gateway.str "yes");
     (lit "is_upvas_compliant", Gateway.str "yes");
     (lit "reason", strings ["- Contains potato, a root vegetable."])].

(** The texts that this parser knows: those of a few values; every other
    text is a syntax error. *)
Definition known : list json := [potatoChips; JNull; JObject []; JArray []].

Definition parse (s : jsstring) : jsstring + json :=
  match filter (fun v => stringify v = s) known with
  | v :: _ => inr v
  | [] => inl (lit "Unexpected token")
  end.

#[local] Instance runtime : Runtime :=
  {| Buffer_from_base64 := from_base64;
     Buffer_toString_base64 := to_base64;
     JSON_parse := parse;
     toISOString := fun t => lit "t=" ++ Gateway.Z_toString t;
     keys_of_null_message := lit "Cannot convert undefined or null to object";
     systemPrompt := lit "You are a strict vegetarian food validator";
     brokerDown := ErrorObj (lit "Error") (lit "connect ECONNREFUSED");
     defaultConcurrency := 1 |}.

(** A service that answers with a fixed text, and one that fails. *)
Definition answers (text : jsstring) : Service := fun _ => inr text.
Definition fails (e : thrown) : Service := fun _ => inl e.

Definition rateLimited : thrown := ErrorObj (lit "Error") (lit "429 Too Many Requests").

Definition clock0 : Clock := {| startTime := 1000; endTime := 1500; doneTime := 1501 |}.

(** A reply in a code fence. *)
Definition fenced (v : json) : jsstring :=
  lit "```json" ++ [10] ++ stringify v ++ [10] ++ lit "```" ++ [10].

Definition noTask : FoodValidationTask :=
  {| imageFile := None; imageUrl := None; imageBase64 := None;
     foodName := None; ingredients := None; mediaType := None |}.

Definition noForm : Gateway.FormData :=
  {| Gateway.image := None; Gateway.form_imageUrl := None;
     Gateway.form_imageBase64 := None; Gateway.form_foodName := None;
     Gateway.form_ingredients := None |}.

Definition env : Config.Env := {| Config.QUEUE_CONCURRENCY := None |}.

(** A task with a URL, as the gateway enqueues it, and its life: posted,
    claimed by the worker, settled after a good reply. *)
Definition urlForm : Gateway.FormData :=
  {| Gateway.image := None;
     Gateway.form_imageUrl := Some (lit "https://example.com/chips.jpg");
     Gateway.form_imageBase64 := None;
     Gateway.form_foodName := Some (lit "Potato Chips");
     Gateway.form_ingredients := Some (lit "potato, oil, salt") |}.

Definition urlJob : Job :=
  {| id := 1; data := Gateway.taskData urlForm; opts := Gateway.addOptions;
     state := waiting; progress := 0; timestamp := 1000;
     processedOn := None; finishedOn := None; attemptsMade := 0;
     returnvalue := None; failedReason := None; runAt := 1000 |}.

Definition sPosted : System.State :=
  {| System.queue := (Gateway.postValidateFood (inr urlForm) clock0 Bull.empty).2;
     System.inflight := [] |}.

Definition sClaimed : System.State :=
  {| System.queue := match Bull.claim 1100 (System.queue sPosted) with
                     | Some (_, q) => q
                     | None => System.queue sPosted
                     end;
     System.inflight := [lit "1"] |}.

Definition activeJob : Job := Bull.moveToActive 1100 urlJob.

Definition sDone : System.State :=
  {| System.queue :=
       Bull.settle (lit "1")
         (Worker.handler (answers (fenced potatoChips)) clock0 activeJob) 1600
         (System.queue sClaimed);
     System.inflight := [] |}.

Definition doneJob : Job :=
  Bull.finish (Worker.handler (answers (fenced potatoChips)) clock0 activeJob) 1600 activeJob.

(** One more task served from the form to the recorded outcome: posted,
    claimed by the worker, settled after a good reply. *)
Definition serve (s : System.State) : System.State :=
  let q1 := (Gateway.postValidateFood (inr urlForm) clock0 (System.queue s)).2 in
  match Bull.claim 1100 q1 with
  | Some (k, q2) =>
      match Bull.jobs q2 !! k with
      | Some job =>
          {| System.queue :=
               Bull.settle k (Worker.handler (answers (fenced potatoChips)) clock0 job)
                 1600 q2;
             System.inflight := [] |}
      | None => s
      end
  | None => s
  end.

(** One task more than the queue keeps completed jobs, each served before
    the next is posted; then the record of the first is removed. *)
Definition sFull : System.State :=
  Nat.iter (Z.to_nat (Config.removeOnComplete + 1)) serve System.initial.

Definition sPruned : System.State :=
  {| System.queue := Bull.expire (lit "1") (System.queue sFull);
     System.inflight := [] |}.

(** Another task is posted after the first is done. *)
Definition sLater : System.State :=
  {| System.queue := (Gateway.postValidateFood (inr urlForm) clock0 (System.queue sDone)).2;
     System.inflight := [] |}.

(** Payloads of the base64 branch: a data URL, as a client sends it; the
    text that the gateway makes of an uploaded PNG file; a data URL whose
    data is wrapped over two lines. *)
Definition base64Task (b64 : jsstring) (media : string) : FoodValidationTask :=
  {| imageFile := None; imageUrl := None; imageBase64 := Some b64;
     foodName := Some []; ingredients := Some []; mediaType := Some (lit media) |}.

Definition wrapped : jsstring := lit "aGVs" ++ [10] ++ lit "bG8=".

(** A payload with the three references at once. *)
Definition threeRefs : FoodValidationTask :=
  {| imageFile := Some {| bytes := [104; 105] |};
     imageUrl := Some (lit "https://example.com/chips.jpg");
     imageBase64 := Some (lit "aGVsbG8=");
     foodName := None; ingredients := None; mediaType := None |}.

(** A reply that is no JSON. *)
Definition prose : jsstring := lit "I cannot see any food in this image.".

End Demo.

(** ** The queue after [m] tasks of the scenario *)

(** After [m] tasks served one after the other nothing waits, the broker
    is reached, and the queue holds [m] jobs, all completed under the
    options of the gateway; the first of them is the job of the example. *)
Definition served (m : nat) (q : Bull.QueueState) : Prop :=
  Bull.counter q = N.of_nat m
  /\ Bull.wait q = []
  /\ Bull.reachable q = true
  /\ size (Bull.jobs q) = m
  /\ (forall k j, Bull.jobs q !! k = Some j ->
                  state j = completed /\ opts j = Gateway.addOptions
                  /\ exists n, k = Bull.key n /\ n <= N.of_nat m)
  /\ ((1 <= m)%nat -> Bull.jobs q !! lit "1" = Some Demo.doneJob).

(** * Properties *)

(** ** Strings *)

Section StringFacts.

Lemma strip_prefix_app (p r : jsstring) : strip_prefix p (p ++ r) = Some r.
Proof.
  induction p as [|a p IH]; simpl; [reflexivity|].
  rewrite N.eqb_refl. exact IH.
Qed.

Lemma strip_prefix_Some (p s r : jsstring) :
  strip_prefix p s = Some r -> s = p ++ r.
Proof.
  revert s. induction p as [|a p IH]; intros s Hs; simpl in *.
  - congruence.
  - destruct s as [|b s]; [discriminate|].
    destruct (a =? b) eqn:E; [|discriminate].
    apply N.eqb_eq in E. subst b. f_equal. auto.
Qed.

Lemma startsWith_app (p r : jsstring) : startsWith p (p ++ r) = true.
Proof. unfold startsWith. now rewrite strip_prefix_app. Qed.

(** A greedy repetition takes the whole run when the continuation accepts
    what follows it. *)
Lemma many_run {A : Type} (p : N -> bool) (min : nat) (a rest : jsstring)
  (k : nat -> jsstring -> option A) (x : A) :
  forall n pos,
    forallb p a = true ->
    (min <= n + length a)%nat ->
    match rest with [] => True | c :: _ => p c = false end ->
    k (pos + length a)%nat rest = Some x ->
    many p min n pos (a ++ rest) k = Some x.
Proof.
  induction a as [|c a IH]; intros n pos Ha Hmin Hrest Hk; simpl in *.
  - rewrite Nat.add_0_r in Hk, Hmin.
    apply Nat.leb_le in Hmin.
    destruct rest as [|c rest]; simpl; rewrite ?Hrest, Hmin; exact Hk.
  - apply andb_true_iff in Ha as [Hc Ha]. rewrite Hc.
    rewrite (IH (S n) (S pos)); [reflexivity|assumption|lia| assumption|].
    now replace (S pos + length a)%nat with (pos + S (length a))%nat by lia.
Qed.

Lemma many_all {A : Type} (p : N -> bool) (min : nat) (a : jsstring)
  (k : nat -> jsstring -> option A) (x : A) (n pos : nat) :
  forallb p a = true ->
  (min <= n + length a)%nat ->
  k (pos + length a)%nat [] = Some x ->
  many p min n pos a k = Some x.
Proof.
  intros Ha Hmin Hk. rewrite <- (app_nil_r a).
  now apply many_run.
Qed.

(** The regular expression of line 85 on a well-formed data URL: the
    match is the whole text, group 1 the media type and group 2 the data. *)
Lemma exec_data_url {A : Type} (mediatype data : jsstring)
  (k : nat -> jsstring -> captures -> option A) (x : A) :
  mediatype <> [] ->
  forallb not_semicolon mediatype = true ->
  data <> [] ->
  forallb dot data = true ->
  k (length (Spec.dataUrl mediatype data)) [] [(2%nat, data); (1%nat, mediatype)] = Some x ->
  exec re_data_url 0 (Spec.dataUrl mediatype data) [] k = Some x.
Proof.
  intros Hm Hsemi Hd Hdot Hk. unfold Spec.dataUrl in *.
  unfold re_data_url, seq_of. cbn [fold_right exec Nat.eqb].
  rewrite strip_prefix_app.
  apply many_run; [exact Hsemi| | reflexivity |].
  - destruct mediatype; [congruence|simpl; lia].
  - rewrite strip_prefix_app.
    apply many_all; [exact Hdot| |].
    + destruct data; [congruence|simpl; lia].
    + cbn [exec strip_prefix]. cbn [length].
      rewrite !length_app in Hk.
      replace (0 + length (lit "data:") + length mediatype
               + length (lit ";base64,") + length data + 0)%nat
        with (length (lit "data:") + (length mediatype
               + (length (lit ";base64,") + length data)))%nat by lia.
      replace (_ + length data - _)%nat with (length data) by lia.
      replace (_ + length mediatype - _)%nat with (length mediatype) by lia.
      rewrite firstn_all.
      rewrite firstn_app, firstn_all, Nat.sub_diag, firstn_O, app_nil_r.
      exact Hk.
Qed.

Lemma match_data_url (mediatype data : jsstring) :
  mediatype <> [] ->
  forallb not_semicolon mediatype = true ->
  data <> [] ->
  forallb dot data = true ->
  match_ re_data_url (Spec.dataUrl mediatype data)
  = Some [(2%nat, data); (1%nat, mediatype)].
Proof.
  intros Hm Hsemi Hd Hdot. unfold match_.
  assert (Hs : search re_data_url 0 (Spec.dataUrl mediatype data)
               = Some (0%nat, length (Spec.dataUrl mediatype data),
                       [(2%nat, data); (1%nat, mediatype)])).
  { destruct (Spec.dataUrl mediatype data) eqn:E; cbn [search]; rewrite <- E;
      now rewrite (exec_data_url mediatype data _ _ Hm Hsemi Hd Hdot eq_refl). }
  now rewrite Hs.
Qed.

(** A greedy repetition fails when the continuation refuses every place at
    which the run can stop. *)
Lemma many_none {A : Type} (p : N -> bool) (min : nat)
  (k : nat -> jsstring -> option A) :
  forall s n pos,
    (forall i, (i <= length s)%nat -> forallb p (firstn i s) = true ->
               k (pos + i)%nat (skipn i s) = None) ->
    many p min n pos s k = None.
Proof.
  induction s as [|c r IH]; intros n pos Hk.
  - simpl. specialize (Hk 0%nat (Nat.le_0_l _) eq_refl).
    rewrite Nat.add_0_r in Hk. simpl in Hk. rewrite Hk. now destruct (min <=? n)%nat.
  - assert (Hstop : (if (min <=? n)%nat then k pos (c :: r) else None) = None).
    { specialize (Hk 0%nat (Nat.le_0_l _) eq_refl).
      rewrite Nat.add_0_r in Hk. simpl in Hk. rewrite Hk. now destruct (min <=? n)%nat. }
    cbn [many]. rewrite Hstop. destruct (p c) eqn:Hc; [|reflexivity].
    rewrite IH; [reflexivity|].
    intros i Hi Hall. specialize (Hk (S i)). simpl in Hk.
    rewrite Hc, Hall in Hk. replace (S pos + i)%nat with (pos + S i)%nat by lia.
    apply Hk; [lia|reflexivity].
Qed.

(** The regular expression of line 85 on a data URL whose data holds a line
    terminator: no match, since [.] stops at it and [$] is the end of the
    text. *)
Lemma exec_data_url_none {A : Type} (mediatype data : jsstring)
  (k : nat -> jsstring -> captures -> option A) :
  forallb dot data = false ->
  exec re_data_url 0 (Spec.dataUrl mediatype data) [] k = None.
Proof.
  intros Hdot. unfold Spec.dataUrl.
  unfold re_data_url, seq_of. cbn [fold_right exec Nat.eqb].
  rewrite strip_prefix_app.
  apply many_none. intros i Hi Hsemi.
  destruct (strip_prefix (lit ";base64,") (skipn i (mediatype ++ lit ";base64," ++ data)))
    as [rest|] eqn:E; [|reflexivity].
  apply strip_prefix_Some in E.
  assert (Hle : (i - length mediatype = 0)%nat).
  { rewrite firstn_app, forallb_app in Hsemi.
    destruct (i - length mediatype)%nat; [reflexivity|].
    simpl in Hsemi. rewrite andb_false_r in Hsemi. discriminate. }
  assert (Hrest : forallb dot rest = false).
  { rewrite skipn_app, Hle in E. apply (f_equal (forallb dot)) in E.
    rewrite skipn_O, !forallb_app, Hdot, !andb_false_r in E.
    destruct (forallb dot rest); [|reflexivity].
    rewrite andb_true_r in E. discriminate E. }
  apply many_none. intros j Hj Hdotj.
  destruct (skipn j rest) as [|c r] eqn:Ed; [exfalso|reflexivity].
  pose proof (firstn_skipn j rest) as Hsplit.
  rewrite Ed, app_nil_r in Hsplit. rewrite Hsplit in Hdotj. congruence.
Qed.

Lemma search_data_url_later (s : jsstring) (pos : nat) :
  search re_data_url (S pos) s = None.
Proof.
  revert pos. induction s as [|c r IH]; intros pos; [reflexivity|].
  cbn [search]. rewrite IH. reflexivity.
Qed.

Lemma match_data_url_none (mediatype data : jsstring) :
  forallb dot data = false ->
  match_ re_data_url (Spec.dataUrl mediatype data) = None.
Proof.
  intros Hdot. unfold match_.
  assert (Hs : search re_data_url 0 (Spec.dataUrl mediatype data) = None).
  { destruct (Spec.dataUrl mediatype data) eqn:E; cbn [search]; rewrite <- E;
      rewrite (exec_data_url_none mediatype data _ Hdot); [reflexivity|].
    apply search_data_url_later. }
  now rewrite Hs.
Qed.

End StringFacts.

(** ** The embedding on small inputs *)

Section Examples.

Example fence_json_is_stripped :
  Processor.cleanResponse (lit "  ```json" ++ [10; 10] ++ lit "{}" ++ [10] ++ lit " ```  ")
  = lit "{}".
Proof. reflexivity. Qed.

Example fence_plain_is_stripped :
  Processor.cleanResponse (lit "```" ++ [10] ++ lit "[]  ```") = lit "[]".
Proof. reflexivity. Qed.

Example no_fence_is_trimmed :
  Processor.cleanResponse ([160; 9] ++ lit "{} ```" ++ [8232]) = lit "{} ```".
Proof. reflexivity. Qed.

Example closing_fence_only_at_the_end :
  replace_ re_fence_end (lit "a ```b   ``` ") = lit "a ```b   ``` "
  /\ replace_ re_fence_end (lit "a ```b   ```") = lit "a ```b".
Proof. split; reflexivity. Qed.

Example data_url_groups :
  match_ re_data_url (lit "data:image/png;base64,AAAA")
  = Some [(2%nat, lit "AAAA"); (1%nat, lit "image/png")].
Proof. reflexivity. Qed.

Example data_url_with_parameter_does_not_match :
  match_ re_data_url (lit "data:image/png;charset=utf-8;base64,AAAA") = None.
Proof. reflexivity. Qed.

Example data_url_without_media_type_does_not_match :
  match_ re_data_url (lit "data:;base64,AAAA") = None.
Proof. reflexivity. Qed.

Example parseInt_examples :
  Config.parseInt (lit "5") = Some 5%Z
  /\ Config.parseInt (lit " 12abc") = Some 12%Z
  /\ Config.parseInt (lit "-0x1f") = Some (-31)%Z
  /\ Config.parseInt (lit "abc") = None.
Proof. repeat split; reflexivity. Qed.

Example job_ids_as_text :
  N_toString 0 = lit "0" /\ N_toString 120 = lit "120".
Proof. split; reflexivity. Qed.

Example user_text_with_hints :
  Processor.userText (Gateway.taskData (H := Demo.runtime) Demo.urlForm)
  = Processor.baseText ++ [10; 10] ++ lit "Additional information:" ++ [10]
    ++ lit "Food name: Potato Chips" ++ [10]
    ++ lit "Ingredients: potato, oil, salt" ++ [10].
Proof. reflexivity. Qed.

Example base64_codec_of_the_examples :
  Demo.from_base64 (lit "aGVsbG8=") = {| bytes := [104; 101; 108; 108; 111] |}
  /\ Demo.to_base64 {| bytes := [104; 101; 108; 108; 111] |} = lit "aGVsbG8=".
Proof. split; reflexivity. Qed.

End Examples.

(** ** The adapter and the worker's handler *)

Section AdapterFacts.
Context `{Runtime}.

(** The outer [catch] of the adapter turns every throw into a returned
    record: [processFoodValidation] never throws. *)
Lemma processFoodValidation_returns (generateText : Service) (clock : Clock) (job : Job) :
  exists r, Processor.processFoodValidation generateText clock job = inr r.
Proof.
  unfold Processor.processFoodValidation.
  destruct (Processor.classify generateText (data job)); simpl; eauto.
Qed.

Lemma handler_returns (generateText : Service) (clock : Clock) (job : Job) :
  exists r, Worker.handler generateText clock job = inr r.
Proof.
  unfold Worker.handler.
  destruct (processFoodValidation_returns generateText clock job) as [r ->].
  simpl. eauto.
Qed.

Lemma handler_on_error (generateText : Service) (clock : Clock) (job : Job) (e : thrown) :
  Processor.classify generateText (data job) = inl e ->
  Worker.handler generateText clock job
  = inr {| taskId := N_toString (id job);
           status := status_failed;
           result := None;
           error := Some (message_or e (lit "Unknown error"));
           processingTime := (endTime clock - startTime clock)%Z;
           completedAt := toISOString (doneTime clock) |}.
Proof.
  intros Hc.
  assert (Hid : or_else (Some (N_toString (id job))) (lit "unknown") = N_toString (id job)).
  { unfold or_else. destruct (N_toString (id job)) eqn:E; [|reflexivity].
    exfalso. unfold N_toString, lit in E.
    destruct (N.to_uint (id job)); discriminate E. }
  unfold Worker.handler, Processor.processFoodValidation.
  rewrite Hid, Hc. reflexivity.
Qed.

Lemma handler_on_success (generateText : Service) (clock : Clock) (job : Job) (v : json) :
  Processor.classify generateText (data job) = inr v ->
  exists r,
    Worker.handler generateText clock job = inr r
    /\ status r = status_completed /\ result r = Some v.
Proof.
  intros Hc. unfold Worker.handler, Processor.processFoodValidation.
  rewrite Hc. simpl. eauto.
Qed.

(** The inner [catch]: what the parse step throws when [JSON.parse] does. *)
Lemma parseReply_syntax_error (text m : jsstring) :
  JSON_parse (Processor.cleanResponse text) = inl m ->
  Processor.parseReply text
  = inl (ErrorObj (lit "Error") (lit "Failed to parse AI response as JSON: " ++ m)).
Proof.
  intros Hp. unfold Processor.parseReply, Processor.parseJSON. now rewrite Hp.
Qed.

Lemma parseReply_object (text : jsstring) (fields : list (jsstring * json)) :
  JSON_parse (Processor.cleanResponse text) = inr (JObject fields) ->
  Processor.parseReply text = inr (JObject fields).
Proof.
  intros Hp. unfold Processor.parseReply, Processor.parseJSON. now rewrite Hp.
Qed.

Lemma ClassificationResult_object (v : json) :
  Spec.ClassificationResult v = true -> exists fields, v = JObject fields.
Proof.
  destruct v; try discriminate; eauto.
Qed.

End AdapterFacts.

(** ** The claims on the adapter *)

(** C1 (the code does otherwise).  The claim: when the adapter call raises
    an error, a failure of the service or a reply that does not parse, the
    worker's handler ends with that error thrown.  The code: the outer
    [catch] of [processFoodValidation] returns a record with status
    [failed], so the handler of [worker.ts] returns normally and its own
    [catch] and [throw] are never reached. *)
Theorem handler_returns_failed_record `{Runtime}
  (generateText : Service) (clock : Clock) (job : Job) (e : thrown) :
  generateText (Processor.request (data job)) = inl e
  \/ (exists text, generateText (Processor.request (data job)) = inr text
                   /\ Processor.parseReply text = inl e) ->
  exists r,
    Worker.handler generateText clock job = inr r
    /\ status r = status_failed
    /\ error r = Some (message_or e (lit "Unknown error")).
Proof.
  intros Hfail.
  assert (Hc : Processor.classify generateText (data job) = inl e).
  { unfold Processor.classify.
    destruct Hfail as [-> | (text & -> & Hp)]; [reflexivity | exact Hp]. }
  rewrite (handler_on_error _ _ _ _ Hc). eexists. repeat split.
Qed.

(** The base64 branch within the reach of the regular expression of line
    85.  On the base64 branch (no raw bytes, no URL, a
    non-empty [imageBase64]): for [data:<mediatype>;base64,<data>] with a
    non-empty media type free of [;] and non-empty data free of line
    terminators, the file part has media type [<mediatype>] and the buffer
    decoded from exactly [<data>]; for a text that does not start with
    [data:], the buffer is decoded from the text as given and the media
    type is the [mediaType] of the task, ['image/jpeg'] when that is unset
    or empty. *)
Theorem base64_normalization `{Runtime} (d : FoodValidationTask) (b64 : jsstring) :
  imageFile d = None ->
  truthy (imageUrl d) = false ->
  imageBase64 d = Some b64 ->
  b64 <> [] ->
  (forall mediatype data,
      b64 = Spec.dataUrl mediatype data ->
      mediatype <> [] -> forallb not_semicolon mediatype = true ->
      data <> [] -> forallb dot data = true ->
      Processor.imageParts d
      = [FilePart (DataBuffer (Buffer_from_base64 data)) mediatype])
  /\ (startsWith (lit "data:") b64 = false ->
      Processor.imageParts d
      = [FilePart (DataBuffer (Buffer_from_base64 b64))
           (or_else (mediaType d) (lit "image/jpeg"))]).
Proof.
  intros Hfile Hurl Hb64 Hne.
  assert (Hparts : Processor.imageParts d
                   = let '(media, clean) := Processor.normalizeBase64 d b64 in
                     [FilePart (DataBuffer (Buffer_from_base64 clean)) media]).
  { unfold Processor.imageParts. rewrite Hfile, Hb64.
    destruct (imageUrl d) as [[|c u]|]; try discriminate Hurl;
      destruct b64; congruence. }
  rewrite Hparts. unfold Processor.normalizeBase64. split.
  - intros mediatype dat -> Hm Hsemi Hd Hline.
    unfold Spec.dataUrl at 1. rewrite startsWith_app.
    now rewrite match_data_url.
  - now intros ->.
Qed.

(** C4 (the code does otherwise).  The claim: for every [imageBase64] of
    the form [data:<mediatype>;base64,<data>] the adapter takes
    [<mediatype>] as the media type and decodes exactly [<data>]; line 80
    of [processor.ts] says the same, [Remove data URL prefix if present].
    The code: in [/^data:([^;]+);base64,(.+)$/] the [.] does not match a
    line terminator and [$] is the end of the text, so on every data URL
    whose data holds a line terminator, as base64 wrapped over lines does,
    the expression does not match: the prefix is kept, the whole text is
    decoded, and the media type is the [mediaType] of the task,
    ['image/jpeg'] when that is unset or empty, not the declared one. *)
Theorem wrapped_data_url_keeps_prefix `{Runtime}
  (d : FoodValidationTask) (mediatype data : jsstring) :
  imageFile d = None ->
  truthy (imageUrl d) = false ->
  imageBase64 d = Some (Spec.dataUrl mediatype data) ->
  forallb dot data = false ->
  Processor.imageParts d
  = [FilePart (DataBuffer (Buffer_from_base64 (Spec.dataUrl mediatype data)))
       (or_else (mediaType d) (lit "image/jpeg"))]
  /\ (or_else (mediaType d) (lit "image/jpeg") <> mediatype ->
      Processor.imageParts d
      <> [FilePart (DataBuffer (Buffer_from_base64 data)) mediatype]).
Proof.
  intros Hfile Hurl Hb64 Hdot.
  assert (Hparts : Processor.imageParts d
                   = [FilePart (DataBuffer (Buffer_from_base64 (Spec.dataUrl mediatype data)))
                        (or_else (mediaType d) (lit "image/jpeg"))]).
  { unfold Processor.imageParts. rewrite Hfile, Hb64.
    assert (Hnorm : Processor.normalizeBase64 d (Spec.dataUrl mediatype data)
                    = (or_else (mediaType d) (lit "image/jpeg"),
                       Spec.dataUrl mediatype data)).
    { unfold Processor.normalizeBase64. rewrite (match_data_url_none _ _ Hdot).
      now destruct (startsWith _ _). }
    destruct (imageUrl d) as [[|c u]|]; try discriminate Hurl;
      destruct (Spec.dataUrl mediatype data) as [|c b] eqn:E;
      try discriminate E; now rewrite Hnorm. }
  split; [exact Hparts|].
  intros Hmedia E. rewrite Hparts in E. congruence.
Qed.

(** C5.  When more than one image reference is populated, the request is
    that of the payload with one reference only: the first of the populated
    ones in the order raw bytes, URL, base64.  The content of the request
    is the text and one file part, the part of that reference: the bytes as
    given, the URL as given, or the decoded base64; no other reference of
    the payload is in it. *)
Theorem image_precedence `{Runtime} (d : FoodValidationTask) :
  (1 < length (Spec.populated d))%nat ->
  exists r rest,
    Spec.populated d = r :: rest
    /\ (forall r', In r' rest -> r' <> r)
    /\ Processor.request d = Processor.request (Spec.only r d)
    /\ Spec.populated (Spec.only r d) = [r]
    /\ content (Processor.request d)
       = [TextPart (Processor.userText d);
          match r with
          | Spec.RawBytes f =>
              FilePart (DataBuffer f) (or_else (mediaType d) (lit "image/jpeg"))
          | Spec.Url u => FilePart (DataUrl u) (lit "image/jpeg")
          | Spec.Base64 b =>
              FilePart (DataBuffer (Buffer_from_base64 (Processor.normalizeBase64 d b).2))
                (Processor.normalizeBase64 d b).1
          end].
Proof.
  unfold Spec.populated, Processor.request, Processor.userContent.
  unfold Processor.userText, Processor.imageParts, Spec.only.
  destruct d as [file url b64 fname ingr media]. cbn [imageFile imageUrl imageBase64
    foodName ingredients mediaType].
  destruct file as [f|]; [|destruct url as [[|c u]|]].
  - intros _. eexists _, _. split; [reflexivity|].
    split; [|split; [|split]; reflexivity].
    intros r' Hin. apply in_app_or in Hin.
    destruct url as [[|c u]|], b64 as [[|c' b]|]; simpl in Hin;
      intuition (subst; discriminate).
  - destruct b64 as [[|c b]|]; simpl; lia.
  - intros _. eexists _, _. split; [reflexivity|].
    split; [|split; [|split]; reflexivity].
    intros r' Hin. destruct b64 as [[|c' b]|]; simpl in Hin;
      intuition (subst; discriminate).
  - destruct b64 as [[|c b]|]; simpl; lia.
Qed.

(** C7, as amended.  When the reply, after the code fence is stripped,
    does not parse as JSON, the adapter's parse step raises an [Error]
    whose message is ['Failed to parse AI response as JSON: '] followed by
    the message of the parser; the raw reply is not part of it. *)
Theorem malformed_reply_error `{Runtime}
  (generateText : Service) (d : FoodValidationTask) (text m : jsstring) :
  generateText (Processor.request d) = inr text ->
  JSON_parse (Processor.cleanResponse text) = inl m ->
  Processor.classify generateText d
  = inl (ErrorObj (lit "Error") (lit "Failed to parse AI response as JSON: " ++ m)).
Proof.
  intros Hg Hp. unfold Processor.classify. rewrite Hg. simpl.
  now apply parseReply_syntax_error.
Qed.

(** ** The queue *)

Section KeyFacts.

Lemma lit_inj (a b : string) : lit a = lit b -> a = b.
Proof.
  unfold lit. revert b. induction a as [|x a IH]; intros [|y b] E; simpl in E;
    try discriminate; [reflexivity|].
  injection E as Exy Eab. f_equal; [|auto].
  rewrite <- (ascii_N_embedding x), <- (ascii_N_embedding y). now f_equal.
Qed.

Lemma N_to_uint_nonnil (n : N) : N.to_uint n <> Decimal.Nil.
Proof.
  destruct n; [discriminate|]. apply DecimalPos.Unsigned.to_uint_nonnil.
Qed.

(** Two job ids with the same key are the same id. *)
Lemma key_inj (n m : N) : Bull.key n = Bull.key m -> n = m.
Proof.
  unfold Bull.key, N_toString. intros E%lit_inj.
  apply DecimalN.Unsigned.to_uint_inj.
  pose proof (NilZero.usu _ (N_to_uint_nonnil n)) as Hn.
  pose proof (NilZero.usu _ (N_to_uint_nonnil m)) as Hm.
  rewrite E in Hn. congruence.
Qed.

End KeyFacts.

Section JobFacts.

Lemma data_moveToActive now j : data (Bull.moveToActive now j) = data j.
Proof. reflexivity. Qed.

Lemma data_moveToWait j : data (Bull.moveToWait j) = data j.
Proof. reflexivity. Qed.

Lemma data_finish outcome now j : data (Bull.finish outcome now j) = data j.
Proof. destruct outcome; reflexivity. Qed.

Lemma run_terminal hs now j : Bull.terminal (state j) = true -> Bull.run hs now j = j.
Proof. intros Ht. destruct hs; simpl; [reflexivity|]. now rewrite Ht. Qed.

(** The retry policy of the queue, for handlers that throw: after as many
    attempts as the bound allows the job is failed and every attempt was
    counted. *)
Lemma run_throwing (hs : list (Job -> exc FoodValidationResult)) (now : Z) (j : Job) :
  Forall (fun h => forall j', exists e, h j' = inl e) hs ->
  Bull.terminal (state j) = false ->
  (attemptsMade j < Bull.maxAttempts (opts j))%nat ->
  (Bull.maxAttempts (opts j) - attemptsMade j <= length hs)%nat ->
  state (Bull.run hs now j) = failed
  /\ attemptsMade (Bull.run hs now j) = Bull.maxAttempts (opts j).
Proof.
  revert j. induction hs as [|h hs IH]; intros j Hall Hterm Hlt Hlen.
  - simpl in Hlen. lia.
  - inversion Hall as [|? ? Hh Hrest]; subst.
    cbn [Bull.run]. rewrite Hterm.
    unfold Bull.attempt.
    destruct (Hh (Bull.moveToActive now (Bull.moveToWait j))) as [e ->].
    cbn [Bull.finish].
    set (j1 := Bull.moveToFailed e now _).
    assert (Hopts : opts j1 = opts j) by reflexivity.
    assert (Hmade : attemptsMade j1 = S (attemptsMade j)) by reflexivity.
    destruct (Nat.ltb (S (attemptsMade j)) (Bull.maxAttempts (opts j))) eqn:Hagain.
    + assert (Hst : state j1 = delayed).
      { unfold j1, Bull.moveToFailed. simpl. now rewrite Hagain. }
      apply Nat.ltb_lt in Hagain.
      rewrite <- Hopts.
      apply IH; [assumption | now rewrite Hst | | ];
        rewrite Hopts, Hmade; simpl in Hlen; lia.
    + assert (Hst : state j1 = failed).
      { unfold j1, Bull.moveToFailed. simpl. now rewrite Hagain. }
      apply Nat.ltb_ge in Hagain.
      rewrite run_terminal by now rewrite Hst.
      split; [exact Hst|]. rewrite Hmade. lia.
Qed.

End JobFacts.

(** ** Invariants of the queue *)

Section QueueInvariant.
Context `{Runtime}.

Lemma Inv_empty : Inv Bull.empty.
Proof.
  repeat split; simpl.
  - intros k j Hk. rewrite lookup_empty in Hk. discriminate.
  - intros k Hk. inversion Hk.
  - constructor.
Qed.

Lemma fresh_key (q : Bull.QueueState) :
  Inv q -> Bull.jobs q !! Bull.key (Bull.counter q + 1) = None.
Proof.
  intros (Hkeys & _ & _).
  destruct (Bull.jobs q !! Bull.key (Bull.counter q + 1)) as [j|] eqn:E; [|reflexivity].
  destruct (Hkeys _ _ E) as (n & Hn%key_inj & Hle). lia.
Qed.

Lemma add_jobs d o now q r q' :
  Bull.add d o now q = (r, q') ->
  q' = q
  \/ exists j, data j = d /\ Bull.terminal (state j) = false
               /\ Bull.jobs q' = <[Bull.key (Bull.counter q + 1) := j]> (Bull.jobs q).
Proof.
  unfold Bull.add. destruct (Bull.reachable q); intros [= <- <-]; [right|left; reflexivity].
  cbn [Bull.jobs].
  match goal with |- context [<[_ := ?j]> _] => exists j end.
  split; [reflexivity|]. split; [|reflexivity].
  simpl. now destruct (0 <? delay o)%Z.
Qed.

Lemma Inv_add d o now q : Inv q -> Inv (Bull.add d o now q).2.
Proof.
  intros HI. pose proof (fresh_key q HI) as Hfresh.
  destruct HI as (Hkeys & Hwait & Hnodup).
  unfold Bull.add. destruct (Bull.reachable q); [|now repeat split].
  cbn [snd]. repeat split; cbn [Bull.jobs Bull.counter Bull.wait].
  - intros k j Hk. destruct (decide (Bull.key (Bull.counter q + 1) = k)) as [<-|Hne].
    + exists (Bull.counter q + 1). split; [reflexivity|lia].
    + rewrite lookup_insert_ne in Hk by exact Hne.
      destruct (Hkeys _ _ Hk) as (n & -> & Hle). exists n. split; [reflexivity|lia].
  - intros k Hk.
    assert (Hcases : k ∈ Bull.wait q
                     \/ (k = Bull.key (Bull.counter q + 1) /\ (0 <? delay o)%Z = false)).
    { destruct (0 <? delay o)%Z; [now left|].
      apply elem_of_app in Hk as [Hk|Hk]; [now left|right].
      apply list_elem_of_singleton in Hk. now split. }
    destruct Hcases as [Hk'|[-> Hd]].
    + destruct (Hwait _ Hk') as (j & Hj & Hs). exists j. split; [|exact Hs].
      rewrite lookup_insert_ne; [exact Hj|]. intros E. rewrite E in Hfresh. congruence.
    + rewrite lookup_insert_eq. eexists. split; [reflexivity|]. simpl. now rewrite Hd.
  - destruct (0 <? delay o)%Z; [exact Hnodup|].
    apply NoDup_app. split; [exact Hnodup|]. split; [|apply NoDup_singleton].
    intros k Hk Hk'%list_elem_of_singleton. subst k.
    destruct (Hwait _ Hk) as (j & Hj & _). congruence.
Qed.

Lemma Inv_claim now q k q' : Inv q -> Bull.claim now q = Some (k, q') -> Inv q'.
Proof.
  intros (Hkeys & Hwait & Hnodup). unfold Bull.claim.
  destruct (Bull.wait q) as [|k0 rest] eqn:Ew; [discriminate|].
  destruct (Bull.jobs q !! k0) as [j0|] eqn:Ej; [|discriminate].
  intros [= <- <-]. apply NoDup_cons in Hnodup as [Hnotin Hnodup].
  repeat split; cbn [Bull.jobs Bull.counter Bull.wait].
  - intros k j Hk. destruct (decide (k0 = k)) as [<-|Hne].
    + exact (Hkeys _ _ Ej).
    + rewrite lookup_insert_ne in Hk by exact Hne. eauto.
  - intros k Hk. destruct (Hwait k) as (j & Hj & Hs); [now right|].
    exists j. split; [|exact Hs]. rewrite lookup_insert_ne; [exact Hj|].
    intros ->. contradiction.
  - exact Hnodup.
Qed.

Lemma Inv_settle k outcome now q : Inv q -> Inv (Bull.settle k outcome now q).
Proof.
  intros HI. unfold Bull.settle.
  destruct (Bull.jobs q !! k) as [j|] eqn:Ej; [|exact HI].
  destruct (state j) eqn:Es; try exact HI.
  destruct HI as (Hkeys & Hwait & Hnodup).
  repeat split; cbn [Bull.jobs Bull.counter Bull.wait].
  - intros k' j' Hk. destruct (decide (k = k')) as [<-|Hne].
    + exact (Hkeys _ _ Ej).
    + rewrite lookup_insert_ne in Hk by exact Hne. eauto.
  - intros k' Hk. destruct (Hwait _ Hk) as (j' & Hj & Hs).
    exists j'. split; [|exact Hs]. rewrite lookup_insert_ne; [exact Hj|].
    intros ->. congruence.
  - exact Hnodup.
Qed.

Lemma Inv_promote k now q : Inv q -> Inv (Bull.promote k now q).
Proof.
  intros HI. unfold Bull.promote.
  destruct (Bull.jobs q !! k) as [j|] eqn:Ej; [|exact HI].
  destruct (state j) eqn:Es; try exact HI.
  destruct (runAt j <=? now)%Z; [|exact HI].
  destruct HI as (Hkeys & Hwait & Hnodup).
  assert (Hnotin : k ∉ Bull.wait q).
  { intros Hk. destruct (Hwait _ Hk) as (j' & Hj & Hs). congruence. }
  repeat split; cbn [Bull.jobs Bull.counter Bull.wait].
  - intros k' j' Hk. destruct (decide (k = k')) as [<-|Hne].
    + exact (Hkeys _ _ Ej).
    + rewrite lookup_insert_ne in Hk by exact Hne. eauto.
  - intros k' [Hk|Hk%list_elem_of_singleton]%elem_of_app.
    + destruct (Hwait _ Hk) as (j' & Hj & Hs).
      exists j'. split; [|exact Hs]. rewrite lookup_insert_ne; [exact Hj|].
      intros ->. contradiction.
    + subst k'. rewrite lookup_insert_eq. eexists. split; reflexivity.
  - apply NoDup_app. split; [exact Hnodup|]. split; [|apply NoDup_singleton].
    intros k' Hk Hk'%list_elem_of_singleton. now subst k'.
Qed.

Lemma Inv_expire k0 q : Inv q -> Inv (Bull.expire k0 q).
Proof.
  intros HI. unfold Bull.expire.
  destruct (Bull.jobs q !! k0) as [j0|] eqn:Ej; [|exact HI].
  destruct (Bull.over_limit q j0) eqn:Eo; [|exact HI].
  destruct HI as (Hkeys & Hwait & Hnodup).
  repeat split; cbn [Bull.jobs Bull.counter Bull.wait].
  - intros k j [_ Hk]%lookup_delete_Some. eauto.
  - intros k Hk. destruct (Hwait _ Hk) as (j & Hj & Hs).
    exists j. split; [|exact Hs]. apply lookup_delete_Some. split; [|exact Hj].
    intros ->. assert (j0 = j) by congruence. subst j0.
    unfold Bull.over_limit in Eo. rewrite Hs in Eo. discriminate.
  - exact Hnodup.
Qed.

Lemma Inv_post form clock q : Inv q -> Inv (Gateway.postValidateFood form clock q).2.
Proof.
  intros HI. unfold Gateway.postValidateFood.
  destruct form as [e|f]; [exact HI|].
  destruct (Gateway.noImage f); [exact HI|].
  pose proof (Inv_add (Gateway.taskData f) Gateway.addOptions (startTime clock) q HI) as HI'.
  destruct (Bull.add _ _ _ q) as [[e|j] q']; exact HI'.
Qed.

Lemma Inv_step env s s' : System.step env s s' -> Inv (System.queue s) -> Inv (System.queue s').
Proof.
  intros Hstep HI. destruct Hstep; cbn [System.queue].
  - now apply Inv_post.
  - eapply Inv_claim; eassumption.
  - now apply Inv_settle.
  - now apply Inv_promote.
  - now apply Inv_expire.
  - exact HI.
Qed.

Lemma Inv_reachable env s s' :
  System.reachable_from env s s' -> Inv (System.queue s) -> Inv (System.queue s').
Proof.
  induction 1 as [|s1 s2 s3 Hstep _ IH]; [auto|].
  intros HI. apply IH. eapply Inv_step; eassumption.
Qed.

End QueueInvariant.

(** ** Jobs in a terminal state *)

Section TerminalFacts.
Context `{Runtime}.

Lemma terminal_add d o now q k j :
  Inv q -> Bull.jobs q !! k = Some j ->
  Bull.jobs (Bull.add d o now q).2 !! k = Some j.
Proof.
  intros HI Hk. pose proof (fresh_key q HI) as Hfresh.
  unfold Bull.add. destruct (Bull.reachable q); [|exact Hk].
  cbn [snd Bull.jobs]. rewrite lookup_insert_ne; [exact Hk|]. congruence.
Qed.

Lemma terminal_post form clock q k j :
  Inv q -> Bull.jobs q !! k = Some j ->
  Bull.jobs (Gateway.postValidateFood form clock q).2 !! k = Some j.
Proof.
  intros HI Hk. unfold Gateway.postValidateFood.
  destruct form as [e|f]; [exact Hk|].
  destruct (Gateway.noImage f); [exact Hk|].
  pose proof (terminal_add (Gateway.taskData f) Gateway.addOptions (startTime clock) q k j HI Hk)
    as Hadd.
  destruct (Bull.add _ _ _ q) as [[e|j'] q']; exact Hadd.
Qed.

Lemma terminal_claim now q k0 q' k j :
  Inv q -> Bull.claim now q = Some (k0, q') ->
  Bull.jobs q !! k = Some j -> Bull.terminal (state j) = true ->
  Bull.jobs q' !! k = Some j.
Proof.
  intros (_ & Hwait & _) Hclaim Hk Ht. unfold Bull.claim in Hclaim.
  destruct (Bull.wait q) as [|k1 rest] eqn:Ew; [discriminate|].
  destruct (Bull.jobs q !! k1) as [j1|] eqn:Ej; [|discriminate].
  injection Hclaim as <- <-. cbn [Bull.jobs].
  rewrite lookup_insert_ne; [exact Hk|]. intros ->.
  destruct (Hwait k) as (j' & Hj & Hs); [now left|].
  assert (j' = j) by congruence. subst j'. rewrite Hs in Ht. discriminate.
Qed.

Lemma terminal_settle k0 outcome now q k j :
  Bull.jobs q !! k = Some j -> Bull.terminal (state j) = true ->
  Bull.jobs (Bull.settle k0 outcome now q) !! k = Some j.
Proof.
  intros Hk Ht. unfold Bull.settle.
  destruct (Bull.jobs q !! k0) as [j0|] eqn:Ej; [|exact Hk].
  destruct (state j0) eqn:Es; try exact Hk.
  cbn [Bull.jobs]. rewrite lookup_insert_ne; [exact Hk|]. intros ->.
  assert (j0 = j) by congruence. subst j0. rewrite Es in Ht. discriminate.
Qed.

Lemma terminal_promote k0 now q k j :
  Bull.jobs q !! k = Some j -> Bull.terminal (state j) = true ->
  Bull.jobs (Bull.promote k0 now q) !! k = Some j.
Proof.
  intros Hk Ht. unfold Bull.promote.
  destruct (Bull.jobs q !! k0) as [j0|] eqn:Ej; [|exact Hk].
  destruct (state j0) eqn:Es; try exact Hk.
  destruct (runAt j0 <=? now)%Z; [|exact Hk].
  cbn [Bull.jobs]. rewrite lookup_insert_ne; [exact Hk|]. intros ->.
  assert (j0 = j) by congruence. subst j0. rewrite Es in Ht. discriminate.
Qed.

Lemma terminal_expire k0 q k j :
  Bull.jobs q !! k = Some j -> kept_or_removed k j (Bull.expire k0 q).
Proof.
  intros Hk. unfold kept_or_removed, Bull.expire.
  destruct (Bull.jobs q !! k0) as [j0|] eqn:Ej; [|now left].
  destruct (Bull.over_limit q j0); [|now left].
  cbn [Bull.jobs]. destruct (decide (k0 = k)) as [->|Hne].
  - right. apply lookup_delete_eq.
  - left. rewrite lookup_delete_ne; [exact Hk|exact Hne].
Qed.

Lemma terminal_step env s s' k j :
  System.step env s s' -> Inv (System.queue s) ->
  Bull.jobs (System.queue s) !! k = Some j -> Bull.terminal (state j) = true ->
  kept_or_removed k j (System.queue s').
Proof.
  intros Hstep HI Hk Ht. destruct Hstep; cbn [System.queue].
  - left. now apply terminal_post.
  - left. eapply terminal_claim; eassumption.
  - left. now apply terminal_settle.
  - left. now apply terminal_promote.
  - now apply terminal_expire.
  - left. exact Hk.
Qed.

Lemma counter_step env s s' :
  System.step env s s' ->
  Bull.counter (System.queue s) <= Bull.counter (System.queue s').
Proof.
  intros Hstep. destruct Hstep; cbn [System.queue System.set_reachable Bull.counter];
    try lia.
  - unfold Gateway.postValidateFood. destruct form as [e|f]; [simpl; lia|].
    destruct (Gateway.noImage f); [simpl; lia|].
    unfold Bull.add. destruct (Bull.reachable (System.queue s)); simpl; lia.
  - unfold Bull.claim in *. destruct (Bull.wait (System.queue s)); [discriminate|].
    destruct (Bull.jobs (System.queue s) !! _); [|discriminate].
    match goal with E : Some _ = Some _ |- _ => injection E as <- <- end. simpl. lia.
  - unfold Bull.settle. destruct (Bull.jobs (System.queue s) !! k); [|lia].
    destruct (state _); simpl; lia.
  - unfold Bull.promote. destruct (Bull.jobs (System.queue s) !! k); [|lia].
    destruct (state _); try lia. destruct (runAt _ <=? now)%Z; simpl; lia.
  - unfold Bull.expire. destruct (Bull.jobs (System.queue s) !! k); [|lia].
    destruct (Bull.over_limit _ _); simpl; lia.
Qed.

Lemma removed_step env s s' k :
  System.step env s s' -> passed k (System.queue s) ->
  Bull.jobs (System.queue s) !! k = None ->
  Bull.jobs (System.queue s') !! k = None.
Proof.
  intros Hstep (n & -> & Hle) Hk. destruct Hstep; cbn [System.queue System.set_reachable Bull.jobs].
  - unfold Gateway.postValidateFood. destruct form as [e|f]; [exact Hk|].
    destruct (Gateway.noImage f); [exact Hk|].
    unfold Bull.add. destruct (Bull.reachable (System.queue s)); [|exact Hk].
    cbn [snd Bull.jobs]. rewrite lookup_insert_ne; [exact Hk|].
    intros E%key_inj. lia.
  - unfold Bull.claim in *. destruct (Bull.wait (System.queue s)) as [|k1 rest]; [discriminate|].
    destruct (Bull.jobs (System.queue s) !! k1) eqn:Ej; [|discriminate].
    match goal with E : Some _ = Some _ |- _ => injection E as <- <- end.
    cbn [Bull.jobs]. rewrite lookup_insert_ne; [exact Hk|]. intros ->. congruence.
  - unfold Bull.settle. destruct (Bull.jobs (System.queue s) !! k) eqn:Ej; [|exact Hk].
    destruct (state _); try exact Hk.
    cbn [Bull.jobs]. rewrite lookup_insert_ne; [exact Hk|]. intros ->. congruence.
  - unfold Bull.promote. destruct (Bull.jobs (System.queue s) !! k) eqn:Ej; [|exact Hk].
    destruct (state _); try exact Hk. destruct (runAt _ <=? now)%Z; [|exact Hk].
    cbn [Bull.jobs]. rewrite lookup_insert_ne; [exact Hk|]. intros ->. congruence.
  - unfold Bull.expire. destruct (Bull.jobs (System.queue s) !! k) eqn:Ej; [|exact Hk].
    destruct (Bull.over_limit _ _); [|exact Hk].
    cbn [Bull.jobs]. apply lookup_delete_None. now right.
  - exact Hk.
Qed.

Lemma terminal_reachable env s s' k j :
  System.reachable_from env s s' -> Inv (System.queue s) ->
  Bull.jobs (System.queue s) !! k = Some j -> Bull.terminal (state j) = true ->
  kept_or_removed k j (System.queue s').
Proof.
  intros Hreach HI Hk Ht.
  assert (Hgen : (Bull.jobs (System.queue s) !! k = Some j
                  \/ Bull.jobs (System.queue s) !! k = None)
                 /\ passed k (System.queue s) /\ Inv (System.queue s)).
  { split; [now left|]. split; [|exact HI]. destruct HI as (Hkeys & _). exact (Hkeys _ _ Hk). }
  clear Hk HI. revert Hgen.
  induction Hreach as [s|s1 s2 s3 Hstep _ IH]; intros (Hk & Hpassed & HI); [exact Hk|].
  apply IH. split; [|split].
  - destruct Hk as [Hk|Hk].
    + eapply terminal_step; eassumption.
    + right. eapply removed_step; eassumption.
  - destruct Hpassed as (n & -> & Hle). exists n. split; [reflexivity|].
    pose proof (counter_step _ _ _ Hstep). lia.
  - eapply Inv_step; eassumption.
Qed.

(** The status of a job in a terminal state is read from its record
    alone. *)
Lemma status_of_terminal (taskId : jsstring) (q : Bull.QueueState) (j : Job) :
  Bull.reachable q = true ->
  Bull.jobs q !! taskId = Some j -> Bull.terminal (state j) = true ->
  Gateway.getTaskStatus taskId q
  = {| Gateway.code := 200; Gateway.body := Gateway.statusBody taskId j [] |}.
Proof.
  intros Hr Hk Ht. unfold Gateway.getTaskStatus, Bull.getJob.
  rewrite Hr. cbn [bind_exc]. rewrite Hk.
  destruct (state j); try discriminate Ht; reflexivity.
Qed.

Lemma status_of_removed (taskId : jsstring) (q : Bull.QueueState) :
  Bull.reachable q = true ->
  Bull.jobs q !! taskId = None ->
  Gateway.getTaskStatus taskId q
  = {| Gateway.code := 404;
       Gateway.body := Gateway.object
         [("success", Some (JBool false));
          ("error", Some (Gateway.str "Task not found"));
          ("taskId", Some (JString taskId))] |}.
Proof.
  intros Hr Hk. unfold Gateway.getTaskStatus, Bull.getJob.
  rewrite Hr. cbn [bind_exc]. rewrite Hk. reflexivity.
Qed.

End TerminalFacts.

(** ** The queue after [m] tasks served one after the other *)

Section Retention.

#[local] Existing Instance Demo.runtime.

Lemma served_initial : served 0 (System.queue System.initial).
Proof.
  unfold served. simpl. split_and!; try reflexivity.
  - intros k j Hk. rewrite lookup_empty in Hk. discriminate.
  - lia.
Qed.

(** Serving one more task: the steps of the system, and the queue after. *)
Lemma serve_served (m : nat) (s : System.State) :
  System.inflight s = [] -> served m (System.queue s) ->
  System.inflight (Demo.serve s) = []
  /\ served (S m) (System.queue (Demo.serve s))
  /\ System.reachable_from (H := Demo.runtime) Demo.env s (Demo.serve s).
Proof.
  destruct s as [q infl]. cbn [System.inflight System.queue].
  intros -> (Hc & Hw & Hr & Hsz & Hall & Hone).
  unfold Demo.serve. cbn [System.queue].
  set (k := Bull.key (Bull.counter q + 1)).
  set (w := {| id := Bull.counter q + 1; data := Gateway.taskData Demo.urlForm;
               opts := Gateway.addOptions; state := waiting; progress := 0;
               timestamp := 1000; processedOn := None; finishedOn := None;
               attemptsMade := 0; returnvalue := None; failedReason := None;
               runAt := 1000 |}).
  set (a := Bull.moveToActive 1100 w).
  set (c := Bull.finish
              (Worker.handler (Demo.answers (Demo.fenced Demo.potatoChips)) Demo.clock0 a)
              1600 a).
  set (q1 := {| Bull.jobs := <[k := w]> (Bull.jobs q); Bull.counter := Bull.counter q + 1;
                Bull.wait := [k]; Bull.reachable := true |}).
  set (q2 := {| Bull.jobs := <[k := a]> (Bull.jobs q1); Bull.counter := Bull.counter q + 1;
                Bull.wait := []; Bull.reachable := true |}).
  set (q3 := {| Bull.jobs := <[k := c]> (Bull.jobs q2); Bull.counter := Bull.counter q + 1;
                Bull.wait := []; Bull.reachable := true |}).
  assert (Hpost : (Gateway.postValidateFood (inr Demo.urlForm) Demo.clock0 q).2 = q1).
  { unfold Gateway.postValidateFood.
    change (Gateway.noImage Demo.urlForm) with false. cbv iota.
    unfold Bull.add. rewrite Hr, Hw. reflexivity. }
  assert (Hclaim : Bull.claim 1100 q1 = Some (k, q2)).
  { unfold Bull.claim, q1. cbn [Bull.wait Bull.jobs Bull.counter Bull.reachable].
    rewrite lookup_insert_eq. reflexivity. }
  assert (Hk2 : Bull.jobs q2 !! k = Some a).
  { unfold q2. cbn [Bull.jobs]. apply lookup_insert_eq. }
  assert (Hsettle : Bull.settle k
                      (Worker.handler (Demo.answers (Demo.fenced Demo.potatoChips))
                         Demo.clock0 a) 1600 q2 = q3).
  { unfold Bull.settle. rewrite Hk2. reflexivity. }
  rewrite Hpost, Hclaim, Hk2, Hsettle. cbn [System.inflight System.queue].
  assert (Hfresh : Bull.jobs q !! k = None).
  { destruct (Bull.jobs q !! k) as [j|] eqn:Ej; [|reflexivity].
    destruct (Hall _ _ Ej) as (_ & _ & n & En & Hle).
    apply key_inj in En. lia. }
  assert (Hjobs : Bull.jobs q3 = <[k := c]> (Bull.jobs q)).
  { unfold q3, q2, q1. cbn [Bull.jobs]. now rewrite !insert_insert_eq. }
  assert (Hc3 : state c = completed /\ opts c = Gateway.addOptions).
  { unfold c.
    destruct (handler_returns (Demo.answers (Demo.fenced Demo.potatoChips)) Demo.clock0 a)
      as [r ->].
    split; reflexivity. }
  split; [reflexivity|]. split.
  - unfold served. rewrite Hjobs.
    split_and!; try reflexivity.
    + unfold q3. cbn [Bull.counter]. lia.
    + rewrite map_size_insert_None; [now rewrite Hsz|exact Hfresh].
    + intros k' j. rewrite lookup_insert. case_decide as Ek.
      * intros [= <-]. destruct Hc3 as [Hs Ho]. split; [exact Hs|]. split; [exact Ho|].
        exists (Bull.counter q + 1). split; [now rewrite <- Ek|lia].
      * intros Hk'. destruct (Hall _ _ Hk') as (Hs & Ho & n & En & Hle).
        split; [exact Hs|]. split; [exact Ho|]. exists n. split; [exact En|lia].
    + intros _. destruct m as [|m'].
      * unfold c, a, w, k. rewrite Hc. apply lookup_insert_eq.
      * rewrite lookup_insert_ne; [apply Hone; lia|].
        unfold k. change (lit "1") with (Bull.key 1). intros E%key_inj. lia.
  - eapply rtc_l.
    { exact (System.step_post Demo.env (inr Demo.urlForm) Demo.clock0
               {| System.queue := q; System.inflight := [] |}). }
    cbn [System.inflight System.queue]. rewrite Hpost.
    eapply rtc_l.
    { refine (System.step_claim Demo.env 1100 k q2
                {| System.queue := q1; System.inflight := [] |} _ Hclaim).
      cbv. lia. }
    cbn [System.inflight System.queue].
    apply rtc_once.
    pose proof (System.step_settle Demo.env k a
                  (Demo.answers (Demo.fenced Demo.potatoChips)) Demo.clock0 1600
                  {| System.queue := q2; System.inflight := [k] |}
                  (list_elem_of_here _ _) Hk2) as Hstep.
    cbn [System.inflight System.queue] in Hstep. rewrite Hsettle in Hstep.
    rewrite filter_cons, decide_False in Hstep; [exact Hstep|].
    intros Hne. now apply Hne.
Qed.

Lemma served_iter (m : nat) :
  System.inflight (Nat.iter m Demo.serve System.initial) = []
  /\ served m (System.queue (Nat.iter m Demo.serve System.initial))
  /\ System.reachable_from (H := Demo.runtime) Demo.env System.initial
       (Nat.iter m Demo.serve System.initial).
Proof.
  induction m as [|m (Hin & Hs & Hreach)].
  - split; [reflexivity|]. split; [exact served_initial|]. apply rtc_refl.
  - cbn [Nat.iter nat_rect].
    destruct (serve_served m _ Hin Hs) as (Hin' & Hs' & Hstep).
    split; [exact Hin'|]. split; [exact Hs'|].
    etrans; [exact Hreach|exact Hstep].
Qed.

(** Once the queue holds more completed jobs than it keeps, the first can
    be removed, and a status request for it is answered 404. *)
Lemma served_held (m : nat) (q : Bull.QueueState) :
  served m q -> Bull.held completed q = m.
Proof.
  intros (_ & _ & _ & Hsz & Hall & _). unfold Bull.held.
  rewrite map_filter_id; [exact Hsz|].
  intros k j Hk. now destruct (Hall _ _ Hk).
Qed.

Lemma served_pruned (m : nat) (q : Bull.QueueState) :
  served m q -> Z.of_nat m = (Config.removeOnComplete + 1)%Z ->
  Bull.jobs q !! lit "1" = Some Demo.doneJob
  /\ Bull.jobs (Bull.expire (lit "1") q) !! lit "1" = None
  /\ Bull.reachable (Bull.expire (lit "1") q) = true.
Proof.
  intros Hs Hm. pose proof (served_held m q Hs) as Hheld.
  destruct Hs as (_ & _ & Hr & _ & _ & Hone).
  assert (Hpos : (0 <=? Config.removeOnComplete)%Z = true) by reflexivity.
  apply Z.leb_le in Hpos.
  assert (H1 : Bull.jobs q !! lit "1" = Some Demo.doneJob) by (apply Hone; lia).
  split; [exact H1|].
  unfold Bull.expire. rewrite H1.
  assert (Hover : Bull.over_limit q Demo.doneJob = true).
  { unfold Bull.over_limit.
    change (state Demo.doneJob) with completed. cbv iota.
    change (removeOnComplete (opts Demo.doneJob)) with Config.removeOnComplete.
    rewrite Hheld. apply Z.ltb_lt. lia. }
  rewrite Hover. cbn [Bull.jobs Bull.reachable].
  split; [apply lookup_delete_eq|exact Hr].
Qed.

End Retention.

(** ** The claims on the queue and the gateway *)

(** C2 (the code does otherwise).  The claim: a task whose adapter call
    fails on every attempt ends [failed] with [attemptsMade] equal to the
    bound.  The code: the handler returns a record on the first failing
    call, so the queue completes the job at once; it is never retried and
    no attempt is counted.  ([run_throwing] is what the queue does with a
    handler that throws.) *)
Theorem failing_adapter_job_completes `{Runtime}
  (calls : list (Service * Clock)) (now : Z) (job : Job) :
  calls <> [] ->
  Forall (fun call => exists e, Processor.classify call.1 (data job) = inl e) calls ->
  Bull.terminal (state job) = false ->
  let final := Bull.run (map (fun call => Worker.handler call.1 call.2) calls) now job in
  state final = completed
  /\ attemptsMade final = attemptsMade job
  /\ exists r, returnvalue final = Some r /\ status r = status_failed.
Proof.
  intros Hne Hall Hterm.
  destruct calls as [|[generateText clock] rest]; [congruence|].
  inversion Hall as [|? ? [e He] _]; subst. cbn [fst] in He.
  cbn [map Bull.run fst snd]. rewrite Hterm.
  unfold Bull.attempt.
  rewrite (handler_on_error generateText clock _ e) by exact He.
  cbn [Bull.finish]. rewrite run_terminal by reflexivity.
  repeat split. eexists. split; reflexivity.
Qed.

(** C3.  When the service answers and the reply, after the code fence is
    stripped, parses as JSON of the Classification Result shape, the job
    is completed and the status endpoint answers 200 with status
    [completed] and that parsed value as [result]. *)
Theorem parsed_reply_is_the_result `{Runtime}
  (q : Bull.QueueState) (k : jsstring) (job : Job)
  (generateText : Service) (clock : Clock) (now : Z) (text : jsstring) (v : json) :
  Bull.reachable q = true ->
  Bull.jobs q !! k = Some job ->
  state job = active ->
  generateText (Processor.request (data job)) = inr text ->
  JSON_parse (Processor.cleanResponse text) = inr v ->
  Spec.ClassificationResult v = true ->
  let q' := Bull.settle k (Worker.handler generateText clock job) now q in
  let response := Gateway.getTaskStatus k q' in
  (exists job', Bull.jobs q' !! k = Some job' /\ state job' = completed)
  /\ Gateway.code response = 200%nat
  /\ Spec.field "status" (Gateway.body response) = Some (JString (lit "completed"))
  /\ Spec.field "result" (Gateway.body response) = Some v.
Proof.
  intros Hr Hk Hs Hg Hp Hshape. intros q' response.
  destruct (ClassificationResult_object v Hshape) as [fields ->].
  assert (Hc : Processor.classify generateText (data job) = inr (JObject fields)).
  { unfold Processor.classify. rewrite Hg. simpl. now apply parseReply_object. }
  destruct (handler_on_success generateText clock job _ Hc) as (r & Hh & Hst & Hres).
  assert (Hq' : Bull.jobs q' !! k = Some (Bull.moveToCompleted r now job)).
  { unfold q', Bull.settle. rewrite Hk, Hs, Hh. cbn [Bull.jobs Bull.finish].
    apply lookup_insert_eq. }
  assert (Hr' : Bull.reachable q' = true).
  { unfold q', Bull.settle. rewrite Hk, Hs. exact Hr. }
  split; [eexists; split; [exact Hq'|reflexivity]|].
  unfold response. rewrite (status_of_terminal k q' _ Hr' Hq') by reflexivity.
  cbn [Gateway.code Gateway.body]. split; [reflexivity|].
  unfold Gateway.statusBody, Gateway.object.
  cbn [Bull.moveToCompleted state returnvalue failedReason finishedOn processedOn].
  destruct (processedOn job); cbn; rewrite ?Hres; split; reflexivity.
Qed.

(** C6.  A form with none of the fields [image], [imageUrl] and
    [imageBase64] is answered at once with 400 and the error text, and the
    queue is left as it was: no task is enqueued. *)
Theorem no_image_is_rejected `{Runtime}
  (formData : Gateway.FormData) (clock : Clock) (q : Bull.QueueState) :
  Gateway.image formData = None ->
  Gateway.form_imageUrl formData = None ->
  Gateway.form_imageBase64 formData = None ->
  Gateway.postValidateFood (inr formData) clock q
  = ({| Gateway.code := 400;
        Gateway.body :=
          JObject [(lit "error",
                    JString (lit "Please provide either an image file, image URL, or base64 encoded image"))] |},
     q).
Proof.
  intros Hi Hu Hb. unfold Gateway.postValidateFood, Gateway.noImage.
  rewrite Hi, Hu, Hb. reflexivity.
Qed.

(** C8, as amended.  Once a job is in a terminal state, no event of the
    system changes its record; the retention of finished jobs can only
    remove it.  So two status requests made after that point, both while
    the record is still kept and the broker reached, get the same answer;
    and once the record is removed, a request that reaches the broker is
    answered 404 with the body [Task not found]. *)
Theorem terminal_status_is_stable `{Runtime}
  (env : Config.Env) (s s' : System.State) (taskId : jsstring) (job : Job) :
  System.reachable_from env System.initial s ->
  System.reachable_from env s s' ->
  Bull.jobs (System.queue s) !! taskId = Some job ->
  Bull.terminal (state job) = true ->
  (Bull.jobs (System.queue s') !! taskId = Some job
   \/ Bull.jobs (System.queue s') !! taskId = None)
  /\ (is_Some (Bull.jobs (System.queue s') !! taskId) ->
      Bull.reachable (System.queue s) = true ->
      Bull.reachable (System.queue s') = true ->
      Gateway.getTaskStatus taskId (System.queue s')
      = Gateway.getTaskStatus taskId (System.queue s))
  /\ (Bull.jobs (System.queue s') !! taskId = None ->
      Bull.reachable (System.queue s') = true ->
      Gateway.getTaskStatus taskId (System.queue s')
      = {| Gateway.code := 404;
           Gateway.body := Gateway.object
             [("success", Some (JBool false));
              ("error", Some (Gateway.str "Task not found"));
              ("taskId", Some (JString taskId))] |}).
Proof.
  intros Hinit Hreach Hk Ht.
  assert (HI : Inv (System.queue s)).
  { eapply Inv_reachable; [exact Hinit|apply Inv_empty]. }
  pose proof (terminal_reachable env s s' taskId job Hreach HI Hk Ht) as Hkept.
  split; [exact Hkept|]. split.
  - intros [j' Hj'] Hr Hr'. destruct Hkept as [Hk'|Hk']; [|congruence].
    rewrite (status_of_terminal taskId _ job Hr' Hk' Ht).
    now rewrite (status_of_terminal taskId _ job Hr Hk Ht).
  - intros Hnone Hr'. now apply status_of_removed.
Qed.

(** C9 (the code does otherwise).  The claim: a worker has up to N handler
    runs in flight, N the configured concurrency, and can have more than
    one.  The code: [worker.ts] registers its handler without a
    concurrency and [queueConfig.concurrency] is read nowhere, so whatever
    the environment says the bound is the default of the queue library:
    with its default of one the worker never has two runs in flight. *)
Theorem worker_runs_at_library_default `{Runtime} (env : Config.Env) (s : System.State) :
  System.reachable_from env System.initial s ->
  Bull.parallelism Worker.registration = defaultConcurrency
  /\ (length (System.inflight s) <= defaultConcurrency)%nat.
Proof.
  intros Hreach. split; [reflexivity|].
  apply (rtc_ind_r (R := System.step env)
           (fun s => (length (System.inflight s) <= defaultConcurrency)%nat)
           System.initial);
    [simpl; lia| |exact Hreach].
  clear s Hreach. intros s' s'' _ Hstep IH.
  destruct Hstep; cbn [System.inflight]; try exact IH.
  - match goal with Hlt : (_ < Bull.parallelism _)%nat |- _ => cbn in Hlt end.
    simpl. lia.
  - etrans; [apply length_filter|exact IH].
Qed.

(** C10.  The payload that the gateway builds has no [imageFile]; for an
    uploaded file it has the base64 text of the bytes in [imageBase64] and
    the declared content type, ['image/jpeg'] when there is none, in
    [mediaType].  Every job of the queue was enqueued by the gateway, so no
    job has an [imageFile]: raw bytes are never among the populated
    references and the adapter never takes its raw-bytes branch. *)
Theorem gateway_tasks_have_no_imageFile `{Runtime} :
  (forall formData, imageFile (Gateway.taskData formData) = None)
  /\ (forall formData file,
        Gateway.image formData = Some file ->
        imageBase64 (Gateway.taskData formData)
        = Some (Buffer_toString_base64 (Gateway.file_data file))
        /\ mediaType (Gateway.taskData formData)
           = Some (match Gateway.file_type file with
                   | [] => lit "image/jpeg"
                   | c :: r => c :: r
                   end))
  /\ (forall env s k job,
        System.reachable_from env System.initial s ->
        Bull.jobs (System.queue s) !! k = Some job ->
        imageFile (data job) = None
        /\ forall f, ~ In (Spec.RawBytes f) (Spec.populated (data job))).
Proof.
  assert (Hnone : forall formData, imageFile (Gateway.taskData formData) = None).
  { intros f. unfold Gateway.taskData.
    destruct (Gateway.image f); [reflexivity|].
    destruct (Gateway.form_imageUrl f) as [[|c u]|];
      destruct (Gateway.form_imageBase64 f) as [[|c' b]|]; reflexivity. }
  split; [exact Hnone|]. split.
  - intros f file Hf. unfold Gateway.taskData. rewrite Hf. split; reflexivity.
  - intros env s k job Hreach.
    assert (Hall : forall k job, Bull.jobs (System.queue s) !! k = Some job ->
                                 imageFile (data job) = None).
    { clear k job.
      apply (rtc_ind_r (R := System.step env)
               (fun s => forall k job, Bull.jobs (System.queue s) !! k = Some job ->
                                       imageFile (data job) = None) System.initial);
        [| |exact Hreach].
      - intros k job Hk. simpl in Hk. rewrite lookup_empty in Hk. discriminate.
      - clear s Hreach. intros s' s'' _ Hstep IH.
        intros k0 job0. destruct Hstep; cbn [System.queue System.set_reachable Bull.jobs].
        + unfold Gateway.postValidateFood. destruct form as [e|f]; [apply IH|].
          destruct (Gateway.noImage f); [apply IH|].
          destruct (Bull.add (Gateway.taskData f) Gateway.addOptions (startTime clock) _)
            as [r q'] eqn:Eadd.
          apply add_jobs in Eadd as [->|(j & Hd & _ & Hjobs)].
          * destruct r; apply IH.
          * assert (Hq' : forall k job, Bull.jobs q' !! k = Some job ->
                                        imageFile (data job) = None).
            { intros k1 j1. rewrite Hjobs, lookup_insert.
              case_decide; [intros [= <-]; rewrite Hd; apply Hnone|apply IH]. }
            destruct r; apply Hq'.
        + unfold Bull.claim in *.
          destruct (Bull.wait _) as [|k1 rest]; [discriminate|].
          destruct (Bull.jobs _ !! k1) as [j1|] eqn:Ej; [|discriminate].
          match goal with E : Some _ = Some _ |- _ => injection E as <- <- end.
          cbn [Bull.jobs]. rewrite lookup_insert.
          case_decide; [intros [= <-]; rewrite data_moveToActive; eauto|apply IH].
        + unfold Bull.settle.
          destruct (Bull.jobs _ !! k) as [j1|] eqn:Ej; [|apply IH].
          destruct (state j1); try apply IH.
          cbn [Bull.jobs]. rewrite lookup_insert.
          case_decide; [intros [= <-]; rewrite data_finish; eauto|apply IH].
        + unfold Bull.promote.
          destruct (Bull.jobs _ !! k) as [j1|] eqn:Ej; [|apply IH].
          destruct (state j1); try apply IH.
          destruct (runAt j1 <=? now)%Z; [|apply IH].
          cbn [Bull.jobs]. rewrite lookup_insert.
          case_decide; [intros [= <-]; rewrite data_moveToWait; eauto|apply IH].
        + unfold Bull.expire.
          destruct (Bull.jobs _ !! k) as [j1|] eqn:Ej; [|apply IH].
          destruct (Bull.over_limit _ j1); [|apply IH].
          cbn [Bull.jobs]. intros [_ Hk]%lookup_delete_Some. eauto.
        + apply IH. }
    intros Hk. pose proof (Hall k job Hk) as Hfile. split; [exact Hfile|].
    intros f. unfold Spec.populated. rewrite Hfile.
    destruct (truthy (imageUrl (data job))), (truthy (imageBase64 (data job)));
      simpl; intuition discriminate.
Qed.

(** ** The claims on concrete inputs *)

Section Traces.

Lemma trace_posted : System.reachable_from (H := Demo.runtime) Demo.env System.initial Demo.sPosted.
Proof.
  apply rtc_once.
  exact (System.step_post (H := Demo.runtime) Demo.env (inr Demo.urlForm) Demo.clock0
           System.initial).
Qed.

Lemma trace_claimed : System.reachable_from (H := Demo.runtime) Demo.env System.initial Demo.sClaimed.
Proof.
  eapply rtc_r; [exact trace_posted|].
  refine (System.step_claim (H := Demo.runtime) Demo.env 1100 (lit "1")
            (System.queue Demo.sClaimed) Demo.sPosted _ _).
  - cbv. lia.
  - vm_compute. reflexivity.
Qed.

Lemma step_done : System.step (H := Demo.runtime) Demo.env Demo.sClaimed Demo.sDone.
Proof.
  refine (System.step_settle (H := Demo.runtime) Demo.env (lit "1") Demo.activeJob
            (Demo.answers (Demo.fenced Demo.potatoChips)) Demo.clock0 1600 Demo.sClaimed _ _).
  - apply list_elem_of_here.
  - vm_compute. reflexivity.
Qed.

Lemma trace_done : System.reachable_from (H := Demo.runtime) Demo.env System.initial Demo.sDone.
Proof. eapply rtc_r; [exact trace_claimed|exact step_done]. Qed.

Lemma trace_later : System.reachable_from (H := Demo.runtime) Demo.env Demo.sDone Demo.sLater.
Proof.
  apply rtc_once.
  exact (System.step_post (H := Demo.runtime) Demo.env (inr Demo.urlForm) Demo.clock0 Demo.sDone).
Qed.

(** The long trace: one task more than the queue keeps completed jobs. *)
Lemma full_served :
  System.inflight Demo.sFull = []
  /\ served (Z.to_nat (Config.removeOnComplete + 1)) (System.queue Demo.sFull)
  /\ System.reachable_from (H := Demo.runtime) Demo.env System.initial Demo.sFull.
Proof. exact (served_iter (Z.to_nat (Config.removeOnComplete + 1))). Qed.

Lemma full_count :
  Z.of_nat (Z.to_nat (Config.removeOnComplete + 1)) = (Config.removeOnComplete + 1)%Z.
Proof. apply Z2Nat.id. apply Z.leb_le. reflexivity. Qed.

Lemma trace_full : System.reachable_from (H := Demo.runtime) Demo.env System.initial Demo.sFull.
Proof. exact (proj2 (proj2 full_served)). Qed.

Lemma trace_pruned : System.reachable_from (H := Demo.runtime) Demo.env Demo.sFull Demo.sPruned.
Proof.
  apply rtc_once.
  pose proof (System.step_expire (H := Demo.runtime) Demo.env (lit "1") Demo.sFull) as Hstep.
  rewrite (proj1 full_served) in Hstep. exact Hstep.
Qed.

End Traces.

Section Witnesses.

(** C1 at a rate-limited call: the handler returns a record. *)
Lemma handler_returns_failed_record_witness :
  exists r,
    Worker.handler (H := Demo.runtime) (Demo.fails Demo.rateLimited) Demo.clock0 Demo.urlJob
    = inr r
    /\ status r = status_failed
    /\ error r = Some (lit "429 Too Many Requests").
Proof.
  apply (@handler_returns_failed_record Demo.runtime
           (Demo.fails Demo.rateLimited) Demo.clock0 Demo.urlJob Demo.rateLimited).
  left. reflexivity.
Defined.

(** C2 at three rate-limited calls: completed, no attempt counted. *)
Lemma failing_adapter_job_completes_witness :
  state (Bull.run
           (map (fun call : Service * Clock => Worker.handler (H := Demo.runtime) call.1 call.2)
              (replicate 3 (Demo.fails Demo.rateLimited, Demo.clock0)))
           1600 Demo.urlJob) = completed
  /\ attemptsMade (Bull.run
           (map (fun call : Service * Clock => Worker.handler (H := Demo.runtime) call.1 call.2)
              (replicate 3 (Demo.fails Demo.rateLimited, Demo.clock0)))
           1600 Demo.urlJob) = 0%nat
  /\ exists r,
      returnvalue (Bull.run
           (map (fun call : Service * Clock => Worker.handler (H := Demo.runtime) call.1 call.2)
              (replicate 3 (Demo.fails Demo.rateLimited, Demo.clock0)))
           1600 Demo.urlJob) = Some r
      /\ status r = status_failed.
Proof.
  apply (@failing_adapter_job_completes Demo.runtime
           (replicate 3 (Demo.fails Demo.rateLimited, Demo.clock0)) 1600 Demo.urlJob).
  - discriminate.
  - repeat constructor; exists Demo.rateLimited; reflexivity.
  - reflexivity.
Defined.

(** C3 on the task of the scenario. *)
Lemma parsed_reply_is_the_result_witness :
  (exists job', Bull.jobs (System.queue Demo.sDone) !! lit "1" = Some job'
                /\ state job' = completed)
  /\ Gateway.code (Gateway.getTaskStatus (H := Demo.runtime) (lit "1") (System.queue Demo.sDone))
     = 200%nat
  /\ Spec.field "status"
       (Gateway.body (Gateway.getTaskStatus (H := Demo.runtime) (lit "1") (System.queue Demo.sDone)))
     = Some (JString (lit "completed"))
  /\ Spec.field "result"
       (Gateway.body (Gateway.getTaskStatus (H := Demo.runtime) (lit "1") (System.queue Demo.sDone)))
     = Some Demo.potatoChips.
Proof.
  apply (@parsed_reply_is_the_result Demo.runtime
           (System.queue Demo.sClaimed) (lit "1") Demo.activeJob
           (Demo.answers (Demo.fenced Demo.potatoChips)) Demo.clock0 1600
           (Demo.fenced Demo.potatoChips) Demo.potatoChips);
    vm_compute; reflexivity.
Defined.

(** The base64 branch on a data URL, and on the text that the gateway
    makes of a PNG upload. *)
Lemma base64_normalization_example :
  Processor.imageParts (H := Demo.runtime)
    (Demo.base64Task (Spec.dataUrl (lit "image/png") (lit "aGVsbG8=")) "image/jpeg")
  = [FilePart (DataBuffer (Demo.from_base64 (lit "aGVsbG8="))) (lit "image/png")]
  /\ Processor.imageParts (H := Demo.runtime) (Demo.base64Task (lit "aGVsbG8=") "image/png")
     = [FilePart (DataBuffer (Demo.from_base64 (lit "aGVsbG8="))) (lit "image/png")].
Proof.
  split.
  - apply (proj1 (@base64_normalization Demo.runtime
                    (Demo.base64Task (Spec.dataUrl (lit "image/png") (lit "aGVsbG8=")) "image/jpeg")
                    (Spec.dataUrl (lit "image/png") (lit "aGVsbG8="))
                    eq_refl eq_refl eq_refl ltac:(discriminate)));
      [reflexivity | discriminate | reflexivity | discriminate | reflexivity].
  - apply (proj2 (@base64_normalization Demo.runtime
                    (Demo.base64Task (lit "aGVsbG8=") "image/png") (lit "aGVsbG8=")
                    eq_refl eq_refl eq_refl ltac:(discriminate))).
    reflexivity.
Defined.

(** C4 on a PNG data URL whose data is wrapped over two lines, in a task
    of media type ['image/jpeg']: the prefix is not removed and the
    declared media type is not used. *)
Lemma wrapped_data_url_keeps_prefix_witness :
  Processor.imageParts (H := Demo.runtime)
    (Demo.base64Task (Spec.dataUrl (lit "image/png") Demo.wrapped) "image/jpeg")
  = [FilePart
       (DataBuffer (Demo.from_base64 (Spec.dataUrl (lit "image/png") Demo.wrapped)))
       (lit "image/jpeg")]
  /\ Processor.imageParts (H := Demo.runtime)
       (Demo.base64Task (Spec.dataUrl (lit "image/png") Demo.wrapped) "image/jpeg")
     <> [FilePart (DataBuffer (Demo.from_base64 Demo.wrapped)) (lit "image/png")].
Proof.
  destruct (@wrapped_data_url_keeps_prefix Demo.runtime
              (Demo.base64Task (Spec.dataUrl (lit "image/png") Demo.wrapped) "image/jpeg")
              (lit "image/png") Demo.wrapped eq_refl eq_refl eq_refl eq_refl)
    as [Hparts Hother].
  split; [exact Hparts|]. apply Hother. discriminate.
Defined.

(** C5 on a payload with the three references. *)
Lemma image_precedence_witness :
  (1 < length (Spec.populated Demo.threeRefs))%nat
  /\ exists r rest,
      Spec.populated Demo.threeRefs = r :: rest
      /\ (forall r', In r' rest -> r' <> r)
      /\ Processor.request (H := Demo.runtime) Demo.threeRefs
         = Processor.request (H := Demo.runtime) (Spec.only r Demo.threeRefs)
      /\ Spec.populated (Spec.only r Demo.threeRefs) = [r]
      /\ content (Processor.request (H := Demo.runtime) Demo.threeRefs)
       = [TextPart (Processor.userText Demo.threeRefs);
          match r with
          | Spec.RawBytes f =>
              FilePart (DataBuffer f) (or_else (mediaType Demo.threeRefs) (lit "image/jpeg"))
          | Spec.Url u => FilePart (DataUrl u) (lit "image/jpeg")
          | Spec.Base64 b =>
              FilePart
                (DataBuffer (@Buffer_from_base64 Demo.runtime
                               (Processor.normalizeBase64 Demo.threeRefs b).2))
                (Processor.normalizeBase64 Demo.threeRefs b).1
          end].
Proof.
  assert (Hmany : (1 < length (Spec.populated Demo.threeRefs))%nat) by (cbv; lia).
  split; [exact Hmany|].
  exact (@image_precedence Demo.runtime Demo.threeRefs Hmany).
Defined.

(** C6 on the empty form. *)
Lemma no_image_is_rejected_witness :
  Gateway.postValidateFood (H := Demo.runtime) (inr Demo.noForm) Demo.clock0 Bull.empty
  = ({| Gateway.code := 400;
        Gateway.body :=
          JObject [(lit "error",
                    JString (lit "Please provide either an image file, image URL, or base64 encoded image"))] |},
     Bull.empty).
Proof.
  exact (@no_image_is_rejected Demo.runtime Demo.noForm Demo.clock0 Bull.empty
           eq_refl eq_refl eq_refl).
Defined.

(** C7 on a reply in prose. *)
Lemma malformed_reply_error_witness :
  Processor.classify (H := Demo.runtime) (Demo.answers Demo.prose) Demo.noTask
  = inl (ErrorObj (lit "Error")
           (lit "Failed to parse AI response as JSON: " ++ lit "Unexpected token")).
Proof.
  exact (@malformed_reply_error Demo.runtime (Demo.answers Demo.prose) Demo.noTask
           Demo.prose (lit "Unexpected token") eq_refl eq_refl).
Defined.

(** C7 as stated fails on that reply: the error that the adapter raises
    holds the parser's message and not the raw reply, and the handler
    returns, so the queue completes the job and does not retry it. *)
Lemma malformed_reply_counterexample :
  Processor.classify (H := Demo.runtime) (Demo.answers Demo.prose) (data Demo.urlJob)
  = inl (ErrorObj (lit "Error")
           (lit "Failed to parse AI response as JSON: Unexpected token"))
  /\ Spec.occurs Demo.prose (lit "Failed to parse AI response as JSON: Unexpected token") = false
  /\ state (Bull.attempt (Worker.handler (H := Demo.runtime) (Demo.answers Demo.prose) Demo.clock0)
              1600 Demo.urlJob) = completed
  /\ attemptsMade (Bull.attempt
                     (Worker.handler (H := Demo.runtime) (Demo.answers Demo.prose) Demo.clock0)
                     1600 Demo.urlJob) = 0%nat.
Proof. repeat split; vm_compute; reflexivity. Qed.

(** C8 between the completion of a task and the posting of the next. *)
Lemma terminal_status_is_stable_witness :
  Gateway.getTaskStatus (H := Demo.runtime) (lit "1") (System.queue Demo.sLater)
  = Gateway.getTaskStatus (H := Demo.runtime) (lit "1") (System.queue Demo.sDone).
Proof.
  apply (proj1 (proj2 (@terminal_status_is_stable Demo.runtime Demo.env Demo.sDone
                         Demo.sLater (lit "1") Demo.doneJob trace_done trace_later
                         eq_refl eq_refl))).
  - exists Demo.doneJob. vm_compute. reflexivity.
  - reflexivity.
  - reflexivity.
Defined.

(** C8 as stated fails once the queue holds more completed jobs than it
    keeps: after one task more than [removeOnComplete] has been served, a
    status request for the first is answered 200; the retention removes its
    record, and the same request is answered 404. *)
Lemma removed_job_counterexample :
  System.reachable_from (H := Demo.runtime) Demo.env System.initial Demo.sFull
  /\ System.reachable_from (H := Demo.runtime) Demo.env Demo.sFull Demo.sPruned
  /\ (exists job, Bull.jobs (System.queue Demo.sFull) !! lit "1" = Some job
                  /\ state job = completed)
  /\ Gateway.code (Gateway.getTaskStatus (H := Demo.runtime) (lit "1") (System.queue Demo.sFull))
     = 200%nat
  /\ Gateway.code (Gateway.getTaskStatus (H := Demo.runtime) (lit "1") (System.queue Demo.sPruned))
     = 404%nat
  /\ Gateway.getTaskStatus (H := Demo.runtime) (lit "1") (System.queue Demo.sFull)
     <> Gateway.getTaskStatus (H := Demo.runtime) (lit "1") (System.queue Demo.sPruned).
Proof.
  destruct full_served as (Hin & Hs & _).
  destruct (served_pruned _ _ Hs full_count) as (H1 & Hnone & Hr').
  assert (Hr : Bull.reachable (System.queue Demo.sFull) = true) by apply Hs.
  assert (E200 : Gateway.getTaskStatus (H := Demo.runtime) (lit "1") (System.queue Demo.sFull)
                 = {| Gateway.code := 200;
                      Gateway.body := Gateway.statusBody (lit "1") Demo.doneJob [] |}).
  { apply status_of_terminal; [exact Hr|exact H1|reflexivity]. }
  assert (E404 : Gateway.code
                   (Gateway.getTaskStatus (H := Demo.runtime) (lit "1")
                      (System.queue Demo.sPruned)) = 404%nat).
  { unfold Demo.sPruned. cbn [System.queue].
    now rewrite (status_of_removed (H := Demo.runtime) _ _ Hr' Hnone). }
  split; [exact trace_full|]. split; [exact trace_pruned|].
  split; [exists Demo.doneJob; split; [exact H1|reflexivity]|].
  split; [now rewrite E200|]. split; [exact E404|].
  intros E. apply (f_equal Gateway.code) in E. rewrite E404, E200 in E.
  discriminate E.
Qed.

(** C9 while the worker runs the task of the scenario. *)
Lemma worker_runs_at_library_default_witness :
  Config.concurrency Demo.env = Some 5%Z
  /\ (length (System.inflight Demo.sClaimed) <= 1)%nat.
Proof.
  split; [reflexivity|].
  exact (proj2 (@worker_runs_at_library_default Demo.runtime Demo.env Demo.sClaimed
                  trace_claimed)).
Defined.

End Witnesses.
